(** * Job queue and worker processing engine of the task-management API

    A shallow embedding of
      - [src/queues/task-processor/task-processor.service.ts]
        (class [TaskProcessorService]: [process], [handleStatusUpdate],
        [handleOverdueTasks]),
      - [src/queues/scheduled-tasks/overdue-tasks.service.ts]
        (class [OverdueTasksService]: [checkOverdueTasks], [formatResponse]),
      - the two methods of [TasksService] the queue code calls
        ([findOverdueTasks], [updateStatus]).

    JavaScript values are a small inductive type, object literals are
    association lists in the order the source writes their keys, exceptions
    are an [Outcome], and the collaborators that live outside the repository
    (the BullMQ queue, the TypeORM repository, the clock) are an [Env] of
    per-call answers together with a [World] that logs every call made.
    A call of the logger returns nothing the code reads.  Its template is
    kept in the status-update handler, where it interpolates a value of the
    job's payload: converting such a value to text can throw.  The other
    templates interpolate counters, strings and the errors the collaborators
    reject with, and are left out. *)

From Stdlib Require Import String ZArith List Bool Arith Lia DecimalString.
From Stdlib Require Import QArith Lqa.
From Equations Require Import Equations.
Import ListNotations.
Close Scope Q_scope.
Local Open Scope string_scope.

(* ===================================================================== *)
(** ** JavaScript values *)
(* ===================================================================== *)

Set Warnings "-register-all".

(** Numbers are the integer-valued ones (counters, timestamps, sizes). *)
Inductive JsVal : Type :=
| JUndefined
| JNull
| JBool (b : bool)
| JNum (n : Z)
| JStr (s : string)
| JError (message : string)               (* an [Error] instance *)
| JArr (items : list JsVal)
| JObj (fields : list (string * JsVal)).

Definition JsObj := list (string * JsVal).

(** Property read [o.k]: [undefined] when the key is absent. *)
Fixpoint get (o : JsObj) (k : string) : JsVal :=
  match o with
  | [] => JUndefined
  | (k', v) :: rest => if String.eqb k' k then v else get rest k
  end.

(** Property read [v.k] on a value that is not [null] or [undefined]. *)
Definition field (v : JsVal) (k : string) : JsVal :=
  match v with
  | JObj o => get o k
  | _ => JUndefined
  end.

(** [Boolean(v)]: what [!v] and [v || w] test. *)
Definition truthy (v : JsVal) : bool :=
  match v with
  | JUndefined | JNull => false
  | JBool b => b
  | JNum n => negb (Z.eqb n 0)
  | JStr s => negb (String.eqb s "")
  | JError _ | JArr _ | JObj _ => true
  end.

(** [a || b] *)
Definition js_or (a b : JsVal) : JsVal := if truthy a then a else b.

(** [a ?? b] *)
Definition nullish (a b : JsVal) : JsVal :=
  match a with
  | JUndefined | JNull => b
  | _ => a
  end.

(** [a === b] on primitives; two distinct objects are never identical. *)
Definition strict_eq (a b : JsVal) : bool :=
  match a, b with
  | JUndefined, JUndefined => true
  | JNull, JNull => true
  | JBool x, JBool y => Bool.eqb x y
  | JNum x, JNum y => Z.eqb x y
  | JStr x, JStr y => String.eqb x y
  | _, _ => false
  end.

(** [v === null || v === undefined]: the values no property can be read
    off and no pattern can destructure. *)
Definition is_nullish (v : JsVal) : bool :=
  match v with
  | JUndefined | JNull => true
  | _ => false
  end.

(** The decimal digits of an integer. *)
Definition string_of_Z (z : Z) : string := NilZero.string_of_int (Z.to_int z).

(** The double nearest to the integer [m > 0], ties to the even mantissa. *)
Definition nearest_double (m : Z) : Z :=
  let shift := (Z.log2 m - 52)%Z in
  if (shift <=? 0)%Z then m
  else
    let q := Z.shiftr m shift in
    let r := (m - Z.shiftl q shift)%Z in
    let half := Z.shiftl 1 (shift - 1) in
    let up := (half <? r)%Z || ((r =? half)%Z && Z.odd q) in
    Z.shiftl (if up then q + 1 else q)%Z shift.

(** The [k]-digit integers [s] for which [s * 10^(n - k)] is read as the
    double [x], each with its distance to [x]. *)
Definition digit_strings (x k n : Z) : list (Z * Z) :=
  if (n <? k)%Z then []
  else
    let p := (10 ^ (n - k))%Z in
    map (fun s => (s, Z.abs (s * p - x)))
      (filter (fun s => (10 ^ (k - 1) <=? s)%Z && (s <? 10 ^ k)%Z
                        && (nearest_double (s * p) =? x)%Z)
              [(x / p)%Z; (x / p + 1)%Z]).

Definition closest (c : list (Z * Z)) : option Z :=
  match c with
  | [] => None
  | (s, d) :: rest =>
      Some (fst (fold_left
                   (fun best sd => if (snd sd <? snd best)%Z then sd else best)
                   rest (s, d)))
  end.

(** The least number of digits [k], from [k] on, that gives [x] back, with
    its digits [s] and the position [n] of the decimal point; a double needs
    17 digits at most. *)
Fixpoint shortest (x len : Z) (fuel : nat) (k : Z) : option (Z * Z * Z) :=
  match fuel with
  | O => None
  | S fuel' =>
      match closest (digit_strings x k len) with
      | Some s => Some (s, k, len)
      | None =>
          match closest (digit_strings x k (len + 1)) with
          | Some s => Some (s, k, (len + 1)%Z)
          | None => shortest x len fuel' (k + 1)%Z
          end
      end
  end.

Fixpoint zeros (n : nat) : string :=
  match n with
  | O => ""
  | S n' => "0" ++ zeros n'
  end.

(** [Number::toString] on a positive integer-valued number: the shortest
    digits that read back as the same double, written out in full below
    [1e21] and with an exponent from there on. *)
Definition positive_to_string (x : Z) : string :=
  let len := Z.of_nat (String.length (string_of_Z x)) in
  match shortest x len 17 1 with
  | None => string_of_Z x
  | Some (s, k, n) =>
      if (n <=? 21)%Z then string_of_Z s ++ zeros (Z.to_nat (n - k))
      else
        match string_of_Z s with
        | String d rest =>
            String d (if (k =? 1)%Z then "" else "." ++ rest)
              ++ "e+" ++ string_of_Z (n - 1)
        | EmptyString => ""
        end
  end.

(** [Number::toString] on an integer-valued number. *)
Definition number_to_string (x : Z) : string :=
  if (x =? 0)%Z then "0"
  else if (x <? 0)%Z then "-" ++ positive_to_string (- x)
  else positive_to_string x.

(** Whether [String(v)] gives a text.  It throws a [TypeError] on an object
    that has a property [toString] of its own: no value here is a function,
    so that property cannot be called, and [valueOf], its own or the
    inherited one, gives no primitive either.  An array joins the texts of
    its elements, so it converts when they do. *)
Fixpoint convertible (v : JsVal) : bool :=
  match v with
  | JObj fields =>
      negb (existsb (fun kv => String.eqb (fst kv) "toString") fields)
  | JArr items =>
      (fix all (l : list JsVal) : bool :=
         match l with
         | [] => true
         | x :: rest => convertible x && all rest
         end) items
  | _ => true
  end.

(** [String(v)], the conversion a template literal applies, where it gives
    a text. *)
Fixpoint to_string (v : JsVal) : string :=
  match v with
  | JUndefined => "undefined"
  | JNull => "null"
  | JBool true => "true"
  | JBool false => "false"
  | JNum n => number_to_string n
  | JStr s => s
  | JError m => if String.eqb m "" then "Error" else "Error: " ++ m
  | JArr items =>
      (fix join (l : list JsVal) : string :=
         match l with
         | [] => ""
         | x :: rest =>
             let sx := match x with
                       | JUndefined | JNull => ""
                       | _ => to_string x
                       end in
             match rest with
             | [] => sx
             | _ :: _ => sx ++ "," ++ join rest
             end
         end) items
  | JObj _ => "[object Object]"
  end.

(** [e?.message] *)
Definition optional_message (e : JsVal) : JsVal :=
  match e with
  | JError m => JStr m
  | JObj o => get o "message"
  | _ => JUndefined
  end.

(** [arr.slice(i, j)] for [0 <= i <= j]. *)
Definition slice {A : Type} (l : list A) (i j : nat) : list A :=
  firstn (j - i) (skipn i l).

(* ===================================================================== *)
(** ** Exceptions, promises and the effect monad *)
(* ===================================================================== *)

(** How a call ends: it returns a value or throws one. *)
Inductive Outcome (A : Type) : Type :=
| Return (a : A)
| Throw (e : JsVal).
Arguments Return {A} a.
Arguments Throw {A} e.

(** A promise, identified with the way it eventually settles. *)
Inductive Promise (A : Type) : Type :=
| Fulfilled (a : A)
| Rejected (reason : JsVal).
Arguments Fulfilled {A} a.
Arguments Rejected {A} reason.

(** What a call of [queue.add] does at the call site: it throws before a
    promise exists, or it hands back a promise. *)
Inductive AddResult : Type :=
| AddThrows (e : JsVal)
| AddPromise (p : Promise JsVal).

(** Job options given to [queue.add]; only [attempts] is read by the code. *)
Record JobsOptions : Type := { attempts : option Z }.

(** One call of [taskQueue.add(name, data, opts)] and how it ended. *)
Record AddCall : Type := {
  call_name : string;
  call_data : JsObj;
  call_opts : option JobsOptions;
  call_result : AddResult
}.

(** Find operators of the [where] object. *)
Inductive FindOperator : Type :=
| Equal (v : JsVal)
| LessThan (v : JsVal).

Definition FindWhere := list (string * FindOperator).

Record FindCall : Type := {
  find_where : FindWhere;
  find_select : list string
}.

Record UpdateCall : Type := {
  update_ids : JsVal;
  update_status : JsVal
}.

(** The collaborators outside the repository.  Each oracle answers the k-th
    call of its kind, so two calls with equal arguments may end differently.
    The last two fields are the errors of the engine the code runs on: their
    wording is the engine's. *)
Record Env : Type := {
  clock : Z;                                (* [new Date()] *)
  table : list JsObj;                       (* rows of the tasks table *)
  find_outcome : nat -> option JsVal;       (* [Some e]: the k-th find rejects *)
  update_outcome : nat -> Outcome JsVal;    (* k-th update: rejects, or [result.affected] *)
  add_outcome : nat -> AddResult;           (* k-th [taskQueue.add] *)
  conversion_error : JsVal;                 (* [TypeError] of [String(v)] *)
  destructuring_error : JsVal -> JsVal      (* ... of [const {...} = v] *)
}.

(** Every call made so far, oldest first. *)
Record World : Type := {
  queue_log : list AddCall;
  update_log : list UpdateCall;
  find_log : list FindCall
}.

Definition empty_world : World :=
  {| queue_log := []; update_log := []; find_log := [] |}.

Definition M (A : Type) : Type := World -> Outcome A * World.

Definition ret {A : Type} (a : A) : M A := fun w => (Return a, w).

Definition throw {A : Type} (e : JsVal) : M A := fun w => (Throw e, w).

Definition bind {A B : Type} (m : M A) (f : A -> M B) : M B :=
  fun w =>
    match m w with
    | (Return a, w') => f a w'
    | (Throw e, w') => (Throw e, w')
    end.

(** [try { m } catch (e) { h e }]: effects made before the throw stay. *)
Definition try_catch {A : Type} (m : M A) (h : JsVal -> M A) : M A :=
  fun w =>
    match m w with
    | (Return a, w') => (Return a, w')
    | (Throw e, w') => h e w'
    end.

Declare Scope js_scope.
Delimit Scope js_scope with js.
Notation "x <- m ;; k" := (bind m (fun x => k))
  (at level 100, m at next level, right associativity) : js_scope.
Notation "m ;;; k" := (bind m (fun _ => k))
  (at level 100, right associativity) : js_scope.
Local Open Scope js_scope.

(** [arr.map(f)] with a callback that has effects: left to right, and a throw
    in one callback ends the whole map. *)
Fixpoint js_map {A B : Type} (f : A -> M B) (l : list A) : M (list B) :=
  match l with
  | [] => ret []
  | x :: rest =>
      y <- f x ;;
      ys <- js_map f rest ;;
      ret (y :: ys)
  end.

(* ===================================================================== *)
(** ** The BullMQ queue and the TypeORM repository *)
(* ===================================================================== *)

Section Collaborators.
Context (env : Env).

(** [`${v}`]: the text of [v], or the [TypeError] of the conversion. *)
Definition template (v : JsVal) : M string :=
  if convertible v then ret (to_string v) else throw (conversion_error env).

(** [this.taskQueue.add(name, data, opts)] *)
Definition taskQueue_add (name : string) (data : JsObj)
    (opts : option JobsOptions) : M (Promise JsVal) :=
  fun w =>
    let r := add_outcome env (length (queue_log w)) in
    let w' := {| queue_log := queue_log w ++
                   [{| call_name := name; call_data := data;
                       call_opts := opts; call_result := r |}];
                 update_log := update_log w;
                 find_log := find_log w |} in
    match r with
    | AddThrows e => (Throw e, w')
    | AddPromise p => (Return p, w')
    end.

Definition operator_holds (op : FindOperator) (field : JsVal) : bool :=
  match op with
  | Equal v => strict_eq field v
  | LessThan v =>
      match field, v with
      | JNum a, JNum b => Z.ltb a b
      | _, _ => false
      end
  end.

Definition row_matches (where_ : FindWhere) (row : JsObj) : bool :=
  forallb (fun c => operator_holds (snd c) (get row (fst c))) where_.

(** [select: [...]] keeps the listed columns of a row and nothing else. *)
Definition select_fields (select : list string) (row : JsObj) : JsObj :=
  filter (fun kv => existsb (String.eqb (fst kv)) select) row.

(** [await repository.find({ where, select })] *)
Definition repository_find (where_ : FindWhere) (select : list string)
    : M (list JsObj) :=
  fun w =>
    let k := length (find_log w) in
    let w' := {| queue_log := queue_log w;
                 update_log := update_log w;
                 find_log := find_log w ++
                   [{| find_where := where_; find_select := select |}] |} in
    match find_outcome env k with
    | Some e => (Throw e, w')
    | None =>
        (Return (map (select_fields select)
                     (filter (row_matches where_) (table env))), w')
    end.

(** The update query run inside the transaction; it yields
    [result.affected]. *)
Definition repository_update (ids status : JsVal) : M JsVal :=
  fun w =>
    let k := length (update_log w) in
    let w' := {| queue_log := queue_log w;
                 update_log := update_log w ++
                   [{| update_ids := ids; update_status := status |}];
                 find_log := find_log w |} in
    match update_outcome env k with
    | Throw e => (Throw e, w')
    | Return affected => (Return affected, w')
    end.
End Collaborators.

(* ===================================================================== *)
(** ** [TasksService]: the two methods the queue code calls *)
(* ===================================================================== *)

Module TasksService.
Section WithEnv.
Context (env : Env).

(** [findOverdueTasks(where)]: the rows matching [where], with the single
    column [status] selected. *)
Definition findOverdueTasks (where_ : FindWhere) : M (list JsObj) :=
  repository_find env where_ ["status"].

(** [updateStatus(id, status)] *)
Definition updateStatus (id status : JsVal) : M JsVal :=
  let ids := match id with
             | JArr _ => id
             | _ => JArr [id]
             end in
  affected <- repository_update env ids status ;;
  ret (JObj [("affected", nullish affected (JNum 0))]).
End WithEnv.
End TasksService.

(* ===================================================================== *)
(** ** [TaskProcessorService]: the dispatcher and its two handlers *)
(* ===================================================================== *)

(** The part of a BullMQ [Job] the processor reads.  The payload [data] is
    whatever value the job was added with; [id] is a string when the store
    has set it; [attemptsMade] is a counter kept by the store, hence a
    natural number when it is set. *)
Record Job : Type := {
  job_id : option string;
  job_name : string;
  job_data : JsVal;
  job_attemptsMade : option nat;
  job_opts : option JobsOptions
}.

Module TaskProcessorService.

Definition MAX_ATTEMPTS : nat := 3.

Definition VALID_STATUSES : list string :=
  ["PENDING"; "IN_PROGRESS"; "COMPLETED"; "CANCELLED"].

Definition CHUNK_SIZE : nat := 50.

(** [this.VALID_STATUSES.includes(status)] *)
Definition is_valid_status (status : JsVal) : bool :=
  existsb (fun s => strict_eq status (JStr s)) VALID_STATUSES.

Section WithEnv.
Context (env : Env).

(** The template of the logger call in the [catch] block of the loop,
    [`Attempt ${attempt} failed for job=${job.id}, task=${taskId}: ${err}`].
    [attempt] is a number and [job.id] a string or [undefined]; [taskId] and
    [err] are converted in this order. *)
Definition attempt_failed (attempt : nat) (jobId : option string)
    (taskId err : JsVal) : M string :=
  task <- template env taskId ;;
  error <- template env err ;;
  ret ("Attempt " ++ string_of_Z (Z.of_nat attempt) ++ " failed for job="
       ++ match jobId with Some id => id | None => "undefined" end
       ++ ", task=" ++ task ++ ": " ++ error).

(** The [while (attempt < this.MAX_ATTEMPTS)] loop of [handleStatusUpdate],
    entered with the current values of [attempt] and [lastError]. *)
Equations? retry_loop (jobId : option string) (taskId status : JsVal)
    (attempt : nat) (lastError : JsVal) (w : World) : Outcome JsVal * World
    by wf (MAX_ATTEMPTS - attempt) lt :=
  retry_loop jobId taskId status attempt lastError w
    with lt_dec attempt MAX_ATTEMPTS => {
    | left _ :=
        (* attempt++ ; try { await updateStatus ... return } catch { ... } *)
        match TasksService.updateStatus env taskId status w with
        | (Return updatedTask, w') =>
            (Return (JObj [("success", JBool true);
                           ("taskId", updatedTask);
                           ("newStatus", updatedTask)]), w')
        | (Throw err, w') =>
            (* lastError = err; this.logger.error(`...`) *)
            match attempt_failed (attempt + 1) jobId taskId err w' with
            | (Return _, w'') =>
                retry_loop jobId taskId status (attempt + 1) err w''
            | (Throw e, w'') => (Throw e, w'')
            end
        end
    | right _ :=
        ret (JObj [("success", JBool false);
                   ("error", JStr ("Failed to update task status after "
                                   ++ string_of_Z (Z.of_nat MAX_ATTEMPTS)
                                   ++ " attempts"));
                   ("detail", optional_message lastError)]) w }.
Proof. unfold MAX_ATTEMPTS in l. destruct attempt as [|[|[|?]]]; simpl; lia. Qed.

(** [handleStatusUpdate(job)].  [const { taskId, status } = job.data] throws
    on a payload that is [null] or [undefined] and reads [undefined] for a
    property the payload does not have. *)
Definition handleStatusUpdate (job : Job) : M JsVal :=
  if is_nullish (job_data job) then
    throw (destructuring_error env (job_data job))
  else
    let taskId := field (job_data job) "taskId" in
    let status := field (job_data job) "status" in
    if negb (truthy taskId) || negb (truthy status) then
      ret (JObj [("success", JBool false);
                 ("error", JStr "Missing required data")])
    else if negb (is_valid_status status) then
      text <- template env status ;;
      ret (JObj [("success", JBool false);
                 ("error", JStr ("Invalid status value: " ++ text))])
    else
      retry_loop (job_id job) taskId status 0 JNull.

(** The body of [try { chunk.map(...); successCount += chunk.length }
    catch { failureCount += chunk.length }] for one chunk.  The promise
    each [add] hands back is dropped by the callback. *)
Definition enqueue_chunk (chunk : list JsObj) (successCount failureCount : nat)
    : M (nat * nat) :=
  try_catch
    (js_map (fun task =>
               taskQueue_add env "task-status-update"
                 [("taskId", get task "id"); ("status", get task "status")]
                 None ;;;
               ret JUndefined) chunk ;;;
     ret (successCount + length chunk, failureCount))
    (fun _ => ret (successCount, failureCount + length chunk)).

(** The [for (let i = 0; i < overdueTasks.length; i += CHUNK_SIZE)] loop,
    entered with the current [i] and the two counters. *)
Equations? chunk_loop (overdueTasks : list JsObj) (i : nat)
    (successCount failureCount : nat) (w : World)
    : Outcome (nat * nat) * World
    by wf (length overdueTasks - i) lt :=
  chunk_loop overdueTasks i successCount failureCount w
    with lt_dec i (length overdueTasks) => {
    | left _ :=
        match enqueue_chunk (slice overdueTasks i (i + CHUNK_SIZE))
                successCount failureCount w with
        | (Return (s, f), w') =>
            chunk_loop overdueTasks (i + CHUNK_SIZE) s f w'
        | (Throw e, w') => (Throw e, w')
        end
    | right _ := ret (successCount, failureCount) w }.
Proof. unfold CHUNK_SIZE. lia. Qed.

Definition handleOverdueTasks (job : Job) : M JsVal :=
  try_catch
    (overdueTasks <- TasksService.findOverdueTasks env [] ;;
     if Nat.eqb (length overdueTasks) 0 then
       ret (JObj [("success", JBool true); ("processed", JNum 0)])
     else
       counts <- chunk_loop overdueTasks 0 0 0 ;;
       ret (JObj [("success", JBool true);
                  ("processed", JNum (Z.of_nat (fst counts)));
                  ("failed", JNum (Z.of_nat (snd counts)));
                  ("message",
                   JStr "Overdue tasks have been queued for processing")]))
    (fun err => throw err).

(** The [switch (job.name)] inside the [try] of [process]. *)
Definition dispatch (job : Job) : M JsVal :=
  if String.eqb (job_name job) "task-status-update" then
    handleStatusUpdate job
  else if String.eqb (job_name job) "overdue-tasks-notification" then
    handleOverdueTasks job
  else
    ret (JObj [("success", JBool false);
               ("error", JStr "Unknown job type")]).

(** [job.attemptsMade ?? 0] *)
Definition attempts_of (job : Job) : Z :=
  match job_attemptsMade job with
  | Some n => Z.of_nat n
  | None => 0
  end.

(** [job.opts?.attempts] *)
Definition opts_attempts (job : Job) : option Z :=
  match job_opts job with
  | Some o => attempts o
  | None => None
  end.

(** [job.opts?.attempts ?? 1] *)
Definition maxAttempts_of (job : Job) : Z :=
  match opts_attempts job with
  | Some a => a
  | None => 1
  end.

(** The [catch (error)] block of [process]. *)
Definition on_error (job : Job) (error : JsVal) : M JsVal :=
  let attempts := attempts_of job in
  let maxAttempts := maxAttempts_of job in
  if Z.ltb attempts (maxAttempts - 1) then
    throw error
  else
    ret (JObj [("success", JBool false);
               ("error", js_or error (JStr "Job failed permanently"))]).

Definition process (job : Job) : M JsVal :=
  try_catch (dispatch job) (on_error job).
End WithEnv.
End TaskProcessorService.

(* ===================================================================== *)
(** ** [OverdueTasksService]: the hourly scanner *)
(* ===================================================================== *)

Module OverdueTasksService.

(** [TaskStatus.PENDING] *)
Definition TaskStatus_PENDING : JsVal := JStr "PENDING".

Definition formatResponse (success : bool) (data : JsVal) (message : string)
    : JsVal :=
  JObj [("status", JNum (if success then 200 else 500));
        ("success", JBool success);
        ("data", nullish data (JArr []));
        ("message", JStr message)].

(** [results.forEach(...)]: the two counters after the loop. *)
Definition tally (results : list (Promise JsVal)) : nat * nat :=
  fold_left
    (fun counts result =>
       match result with
       | Fulfilled _ => (S (fst counts), snd counts)
       | Rejected _ => (fst counts, S (snd counts))
       end)
    results (0, 0).

Section WithEnv.
Context (env : Env).

(** The [try] block of [checkOverdueTasks]. *)
Definition scan : M JsVal :=
  let now := clock env in
  overdueTasks <- TasksService.findOverdueTasks env
                    [("dueDate", LessThan (JNum now));
                     ("status", Equal TaskStatus_PENDING)] ;;
  if Nat.eqb (length overdueTasks) 0 then
    ret (formatResponse true (JArr []) "No overdue tasks found")
  else
    (* Promise.allSettled waits for every promise, whatever it does *)
    results <- js_map (fun task =>
                         taskQueue_add env "overdue-tasks-notification"
                           [("taskId", get task "id")] None)
                      overdueTasks ;;
    let counts := tally results in
    ret (formatResponse true
           (JObj [("successCount", JNum (Z.of_nat (fst counts)));
                  ("failCount", JNum (Z.of_nat (snd counts)))])
           "Overdue tasks check completed").

Definition checkOverdueTasks : M JsVal :=
  try_catch scan
    (fun _ =>
       ret (formatResponse false (JArr []) "Error checking overdue tasks")).
End WithEnv.
End OverdueTasksService.

(* ===================================================================== *)
(** ** Vocabulary of the statements *)
(* ===================================================================== *)

Import TaskProcessorService.

(** The world after the further [updateStatus] calls [us]. *)
Definition with_updates (w : World) (us : list UpdateCall) : World :=
  {| queue_log := queue_log w;
     update_log := update_log w ++ us;
     find_log := find_log w |}.

(** The world after the further [taskQueue.add] calls [cs]. *)
Definition with_adds (w : World) (cs : list AddCall) : World :=
  {| queue_log := queue_log w ++ cs;
     update_log := update_log w;
     find_log := find_log w |}.

(** The world after one more [repository.find]. *)
Definition with_find (w : World) (c : FindCall) : World :=
  {| queue_log := queue_log w;
     update_log := update_log w;
     find_log := find_log w ++ [c] |}.

(** The update [updateStatus(taskId, status)] sends to the repository. *)
Definition update_call (taskId status : JsVal) : UpdateCall :=
  {| update_ids := match taskId with
                   | JArr _ => taskId
                   | _ => JArr [taskId]
                   end;
     update_status := status |}.

(** The rows [findOverdueTasks(where)] resolves with. *)
Definition query_result (env : Env) (where_ : FindWhere) : list JsObj :=
  map (select_fields ["status"]) (filter (row_matches where_) (table env)).

Definition overdue_find (where_ : FindWhere) : FindCall :=
  {| find_where := where_; find_select := ["status"] |}.

(** The [where] object of the scanner. *)
Definition scanner_where (env : Env) : FindWhere :=
  [("dueDate", LessThan (JNum (clock env)));
   ("status", Equal OverdueTasksService.TaskStatus_PENDING)].

(** The k-th [add] of the run, made for [task]. *)
Definition add_call (env : Env) (name : string) (payload : JsObj -> JsObj)
    (k : nat) (task : JsObj) : AddCall :=
  {| call_name := name;
     call_data := payload task;
     call_opts := None;
     call_result := add_outcome env k |}.

(** One [add] per task, in order, the first being the k-th of the run. *)
Fixpoint add_calls (env : Env) (name : string) (payload : JsObj -> JsObj)
    (k : nat) (tasks : list JsObj) : list AddCall :=
  match tasks with
  | [] => []
  | task :: rest =>
      add_call env name payload k task :: add_calls env name payload (S k) rest
  end.

(** [{ taskId: task.id, status: task.status }] *)
Definition child_payload (task : JsObj) : JsObj :=
  [("taskId", get task "id"); ("status", get task "status")].

(** [{ taskId: task.id }] *)
Definition notification_payload (task : JsObj) : JsObj :=
  [("taskId", get task "id")].

(** [c] is an [add] of a [name] job, without options, for one of [tasks]. *)
Definition made_for (name : string) (payload : JsObj -> JsObj)
    (tasks : list JsObj) (c : AddCall) : Prop :=
  call_name c = name /\
  call_opts c = None /\
  exists task, In task tasks /\ call_data c = payload task.

(** A callback for [map]: enqueue a [name] job for the task, then make
    something of the promise. *)
Definition enqueue_for {B : Type} (env : Env) (name : string)
    (payload : JsObj -> JsObj) (g : Promise JsVal -> B) (task : JsObj) : M B :=
  p <- taskQueue_add env name (payload task) None ;; ret (g p).

(** [add] is an async method: it never throws at the call site, a failed
    enqueue is a rejected promise. *)
Definition async_queue (env : Env) : Prop :=
  forall k, exists p, add_outcome env k = AddPromise p.

Definition is_fulfilled (c : AddCall) : bool :=
  match call_result c with
  | AddPromise (Fulfilled _) => true
  | _ => false
  end.

Definition is_rejected (c : AddCall) : bool :=
  match call_result c with
  | AddPromise (Rejected _) => true
  | _ => false
  end.

(** Enqueues that went through, and enqueues that failed. *)
Definition count_fulfilled (cs : list AddCall) : nat :=
  length (filter is_fulfilled cs).

Definition count_rejected (cs : list AddCall) : nat :=
  length (filter is_rejected cs).

(** The chunks the [for] loop of [handleOverdueTasks] cuts, from index [i]
    on: [slice(i, i + CHUNK_SIZE)], [slice(i + CHUNK_SIZE, ...)], ... *)
Equations? chunks_from (l : list JsObj) (i : nat) : list (list JsObj)
    by wf (length l - i) lt :=
  chunks_from l i with lt_dec i (length l) => {
    | left _ := slice l i (i + CHUNK_SIZE) :: chunks_from l (i + CHUNK_SIZE)
    | right _ := [] }.
Proof. unfold CHUNK_SIZE. lia. Qed.

(** The loop body run on a given list of chunks. *)
Fixpoint run_chunks (env : Env) (cs : list (list JsObj))
    (successCount failureCount : nat) (w : World)
    : Outcome (nat * nat) * World :=
  match cs with
  | [] => (Return (successCount, failureCount), w)
  | chunk :: rest =>
      match enqueue_chunk env chunk successCount failureCount w with
      | (Return (s, f), w') => run_chunks env rest s f w'
      | (Throw e, w') => (Throw e, w')
      end
  end.


(** The result of a successful local attempt of [handleStatusUpdate]. *)
Definition update_success (a : JsVal) : JsVal :=
  JObj [("success", JBool true);
        ("taskId", JObj [("affected", nullish a (JNum 0))]);
        ("newStatus", JObj [("affected", nullish a (JNum 0))])].

(** The result of [handleStatusUpdate] once the local budget is spent. *)
Definition update_failure (lastError : JsVal) : JsVal :=
  JObj [("success", JBool false);
        ("error", JStr "Failed to update task status after 3 attempts");
        ("detail", optional_message lastError)].

(** The summary [handleOverdueTasks] returns after the loop. *)
Definition fanout_summary (processed failed : nat) : JsVal :=
  JObj [("success", JBool true);
        ("processed", JNum (Z.of_nat processed));
        ("failed", JNum (Z.of_nat failed));
        ("message", JStr "Overdue tasks have been queued for processing")].



(** The message of the validation failure of [handleStatusUpdate]. *)
Definition validation_error (taskId status : JsVal) : string :=
  if negb (truthy taskId) || negb (truthy status)
  then "Missing required data"
  else "Invalid status value: " ++ to_string status.

(** The attempt count of a job while it is processed: the number of the
    delivery in progress.  [job.attemptsMade] counts the deliveries that
    came before it. *)
Definition attempt_count (job : Job) : Z := (attempts_of job + 1)%Z.

(** The structured result the [catch] block of [process] returns. *)
Definition final_failure (error : JsVal) : JsVal :=
  JObj [("success", JBool false);
        ("error", js_or error (JStr "Job failed permanently"))].

(** The failure [handleStatusUpdate] returns for a payload without
    [taskId] or [status]. *)
Definition missing_data : JsVal :=
  JObj [("success", JBool false); ("error", JStr "Missing required data")].

(** *** Concrete scenarios *)

(** The two [TypeError]s in the words of Node. *)
Definition cannot_convert : JsVal :=
  JError "Cannot convert object to primitive value".

Definition cannot_destructure (v : JsVal) : JsVal :=
  JError ("Cannot destructure property 'taskId' of 'job.data' as it is "
          ++ to_string v ++ ".").

Definition task_row (id : string) (status : string) (dueDate : Z) : JsObj :=
  [("id", JStr id); ("status", JStr status); ("dueDate", JNum dueDate)].

(** Three PENDING tasks, all due before the clock reads 100. *)
Definition three_overdue : list JsObj :=
  [task_row "t1" "PENDING" 10;
   task_row "t2" "PENDING" 20;
   task_row "t3" "PENDING" 30].

(** The store answers every [add] but the second of the run, whose promise
    rejects. *)
Definition second_add_rejected : Env :=
  {| clock := 100;
     table := three_overdue;
     find_outcome := fun _ => None;
     update_outcome := fun _ => Return (JNum 1);
     add_outcome := fun k =>
       if Nat.eqb k 1
       then AddPromise (Rejected (JError "Connection is closed."))
       else AddPromise (Fulfilled (JStr "job"));
     conversion_error := cannot_convert;
     destructuring_error := cannot_destructure |}.

(** One task in the table, and nothing fails. *)
Definition one_task : Env :=
  {| clock := 100;
     table := [task_row "t1" "PENDING" 10];
     find_outcome := fun _ => None;
     update_outcome := fun _ => Return (JNum 1);
     add_outcome := fun _ => AddPromise (Fulfilled (JStr "job"));
     conversion_error := cannot_convert;
     destructuring_error := cannot_destructure |}.

(** The database is unreachable: every query rejects. *)
Definition storage_down : Env :=
  {| clock := 100;
     table := three_overdue;
     find_outcome := fun _ => Some (JError "connection refused");
     update_outcome := fun _ => Throw (JError "connection refused");
     add_outcome := fun _ => AddPromise (Fulfilled (JStr "job"));
     conversion_error := cannot_convert;
     destructuring_error := cannot_destructure |}.

(** The first update of the run hits a deadlock, the later ones go through. *)
Definition first_update_fails : Env :=
  {| clock := 100;
     table := three_overdue;
     find_outcome := fun _ => None;
     update_outcome := fun k =>
       if Nat.eqb k 0 then Throw (JError "deadlock detected")
       else Return (JNum 1);
     add_outcome := fun _ => AddPromise (Fulfilled (JStr "job"));
     conversion_error := cannot_convert;
     destructuring_error := cannot_destructure |}.

(** 120 tasks, and the [add] for the 61st throws at the call site. *)
Definition sixty_first_add_throws : Env :=
  {| clock := 100;
     table := repeat (task_row "t" "PENDING" 10) 120;
     find_outcome := fun _ => None;
     update_outcome := fun _ => Return (JNum 1);
     add_outcome := fun k =>
       if Nat.eqb k 60
       then AddThrows (JError "queue closed")
       else AddPromise (Fulfilled (JStr "job"));
     conversion_error := cannot_convert;
     destructuring_error := cannot_destructure |}.

(** An 'overdue-tasks-notification' job on its delivery number [made + 1],
    enqueued with [attempts: max] or with no options. *)
Definition notification_job (made : nat) (max : option Z) : Job :=
  {| job_id := Some "7";
     job_name := "overdue-tasks-notification";
     job_data := JObj [("taskId", JStr "t1")];
     job_attemptsMade := Some made;
     job_opts := match max with
                 | Some a => Some {| attempts := Some a |}
                 | None => None
                 end |}.

(** A 'task-status-update' job with payload [{taskId, status}]. *)
Definition status_job (taskId status : JsVal) : Job :=
  {| job_id := Some "8";
     job_name := "task-status-update";
     job_data := JObj [("taskId", taskId); ("status", status)];
     job_attemptsMade := Some 0;
     job_opts := None |}.

(** A job of a type no handler is registered for. *)
Definition cleanup_job : Job :=
  {| job_id := Some "9";
     job_name := "cleanup";
     job_data := JObj [];
     job_attemptsMade := Some 0;
     job_opts := Some {| attempts := Some 3%Z |} |}.

(** A value that has no text: [{ toString: 1 }]. *)
Definition no_text : JsVal := JObj [("toString", JNum 1)].

(** Every update rejects with that value. *)
Definition update_rejects_no_text : Env :=
  {| clock := 100;
     table := three_overdue;
     find_outcome := fun _ => None;
     update_outcome := fun _ => Throw no_text;
     add_outcome := fun _ => AddPromise (Fulfilled (JStr "job"));
     conversion_error := cannot_convert;
     destructuring_error := cannot_destructure |}.

(** A 'task-status-update' job added with the payload [null] and with
    [attempts: 3], on its first delivery. *)
Definition null_payload_job : Job :=
  {| job_id := Some "10";
     job_name := "task-status-update";
     job_data := JNull;
     job_attemptsMade := Some 0;
     job_opts := Some {| attempts := Some 3%Z |} |}.

(** *** Further scenarios *)

(** No task at all. *)
Definition empty_table : Env :=
  {| clock := 100;
     table := [];
     find_outcome := fun _ => None;
     update_outcome := fun _ => Return (JNum 1);
     add_outcome := fun _ => AddPromise (Fulfilled (JStr "job"));
     conversion_error := cannot_convert;
     destructuring_error := cannot_destructure |}.

(** The three PENDING tasks again, read when the clock is at 0: none is due
    yet. *)
Definition nothing_due : Env :=
  {| clock := 0;
     table := three_overdue;
     find_outcome := fun _ => None;
     update_outcome := fun _ => Return (JNum 1);
     add_outcome := fun _ => AddPromise (Fulfilled (JStr "job"));
     conversion_error := cannot_convert;
     destructuring_error := cannot_destructure |}.

(** One overdue PENDING task, one COMPLETED task and one PENDING task that
    is due later. *)
Definition mixed_table : Env :=
  {| clock := 100;
     table := [task_row "t1" "PENDING" 10;
               task_row "t2" "COMPLETED" 20;
               task_row "t3" "PENDING" 900];
     find_outcome := fun _ => None;
     update_outcome := fun _ => Return (JNum 1);
     add_outcome := fun _ => AddPromise (Fulfilled (JStr "job"));
     conversion_error := cannot_convert;
     destructuring_error := cannot_destructure |}.

(* ===================================================================== *)
(** ** [CacheService]: src/common/services/cache.service.ts *)
(* ===================================================================== *)

(** [JSON.stringify] on a value: [None] where it gives [undefined].  In an
    array an [undefined] element is written as [null]; in an object a field
    whose value is [undefined] is left out; an [Error] instance has no
    enumerable property of its own. *)
Fixpoint json_of (v : JsVal) : option JsVal :=
  match v with
  | JUndefined => None
  | JNull => Some JNull
  | JBool b => Some (JBool b)
  | JNum n => Some (JNum n)
  | JStr s => Some (JStr s)
  | JError _ => Some (JObj [])
  | JArr items =>
      Some (JArr (map (fun x => match json_of x with
                                | Some y => y
                                | None => JNull
                                end) items))
  | JObj fields =>
      Some (JObj ((fix keep (l : list (string * JsVal)) :=
                     match l with
                     | [] => []
                     | (k, x) :: rest =>
                         match json_of x with
                         | Some y => (k, y) :: keep rest
                         | None => keep rest
                         end
                     end) fields))
  end.

(** [JSON.parse(JSON.stringify(v))]: [None] when [JSON.parse] throws, which
    it does on [undefined]. *)
Definition json_clone (v : JsVal) : option JsVal := json_of v.

Module CacheService.

(** The property names every object created by [{}] inherits from
    [Object.prototype]. *)
Definition object_prototype_names : list string :=
  ["constructor"; "__defineGetter__"; "__defineSetter__"; "hasOwnProperty";
   "__lookupGetter__"; "__lookupSetter__"; "isPrototypeOf";
   "propertyIsEnumerable"; "toString"; "valueOf"; "__proto__";
   "toLocaleString"].

(** [{ value, expiresAt }]; numbers of seconds and instants are exact
    rationals.  The code computes them in doubles, which is the same
    wherever the numbers involved are whole and at most [2^53]. *)
Record Item (V : Type) : Type := {
  value : V;
  expiresAt : Q
}.
Arguments Build_Item {V} _ _.
Arguments value {V} _.
Arguments expiresAt {V} _.

(** [this.cache]: its own properties, oldest first, and whether the object
    still has [Object.prototype] behind it ([{}] has, [Object.create(null)]
    has not). *)
Record Cache (V : Type) : Type := {
  inherits : bool;
  entries : list (string * Item V)
}.
Arguments Build_Cache {V} _ _.
Arguments inherits {V} _.
Arguments entries {V} _.

(** What [this.cache[key]] finds. *)
Inductive Lookup (V : Type) : Type :=
| Own (item : Item V)
| Inherited                      (* a member of [Object.prototype] *)
| Missing.
Arguments Own {V} item.
Arguments Inherited {V}.
Arguments Missing {V}.

(** The cache of a service that has just been constructed: [{}]. *)
Definition fresh {V : Type} : Cache V :=
  {| inherits := true; entries := [] |}.

Fixpoint own {V : Type} (es : list (string * Item V)) (key : string)
    : option (Item V) :=
  match es with
  | [] => None
  | (k, item) :: rest => if String.eqb k key then Some item else own rest key
  end.

(** [obj[key] = item] *)
Fixpoint store {V : Type} (es : list (string * Item V)) (key : string)
    (item : Item V) : list (string * Item V) :=
  match es with
  | [] => [(key, item)]
  | (k, old) :: rest =>
      if String.eqb k key then (key, item) :: rest
      else (k, old) :: store rest key item
  end.

(** [delete obj[key]] *)
Definition remove {V : Type} (key : string) (es : list (string * Item V))
    : list (string * Item V) :=
  filter (fun e => negb (String.eqb (fst e) key)) es.

Definition lookup {V : Type} (c : Cache V) (key : string) : Lookup V :=
  match own (entries c) key with
  | Some item => Own item
  | None =>
      if inherits c && existsb (String.eqb key) object_prototype_names
      then Inherited
      else Missing
  end.

(** [a < b] on rationals, as a boolean. *)
Definition Qlt_bool (a b : Q) : bool := negb (Qle_bool b a).

Section WithValues.
Context {V : Type}.
(** [JSON.parse(JSON.stringify(v))] on the values kept in the cache. *)
Context (clone : V -> option V).
(** [key.trim() === ''] *)
Context (blank : string -> bool).

(** [set(key, value, ttlSeconds)], run when [Date.now()] reads [now].  Every
    [throw] of the body lands in its own [catch], which only logs. *)
Definition set (c : Cache V) (key : string) (v : V) (ttlSeconds : Q)
    (now : Z) : Cache V :=
  if String.eqb key "" then c
  else
    let namespacedKey := "app:" ++ key in
    if Qle_bool ttlSeconds 0 then c
    else
      match clone v with
      | None => c
      | Some safeValue =>
          let expires := (inject_Z now + ttlSeconds * 1000)%Q in
          {| inherits := inherits c;
             entries := store (entries c) namespacedKey
                          {| value := safeValue; expiresAt := expires |} |}
      end.

(** [get(key)]; [None] is [null].  An inherited member has no [expiresAt],
    so it is not taken as expired, and no [value], so the clone throws. *)
Definition get (c : Cache V) (key : string) (now : Z)
    : option V * Cache V :=
  if String.eqb key "" then (None, c)
  else
    match lookup c key with
    | Missing => (None, c)
    | Inherited => (None, c)
    | Own item =>
        if Qle_bool (expiresAt item) (inject_Z now) then
          (None, {| inherits := inherits c;
                    entries := remove key (entries c) |})
        else
          match clone (value item) with
          | Some v => (Some v, c)
          | None => (None, c)
          end
    end.

(** [delete(key)]; [in] also sees inherited members. *)
Definition delete (c : Cache V) (key : string) : bool * Cache V :=
  if String.eqb key "" then (false, c)
  else
    let namespacedKey := "app:" ++ key in
    match lookup c namespacedKey with
    | Missing => (false, c)
    | _ => (true, {| inherits := inherits c;
                     entries := remove namespacedKey (entries c) |})
    end.

(** [clear()]: [this.cache = Object.create(null)]. *)
Definition clear (c : Cache V) : Cache V :=
  {| inherits := false; entries := [] |}.

(** [isExpired(item)] *)
Definition isExpired (item : Lookup V) (now : Z) : bool :=
  match item with
  | Missing => true
  | Inherited => false
  | Own it => Qlt_bool (expiresAt it) (inject_Z now)
  end.

(** [has(key)] *)
Definition has (c : Cache V) (key : string) (now : Z) : bool * Cache V :=
  if blank key then (false, c)
  else
    let item := lookup c key in
    if isExpired item now then
      match item with
      | Own _ => (false, {| inherits := inherits c;
                            entries := remove key (entries c) |})
      | _ => (false, c)
      end
    else (true, c).
End WithValues.

(** The states a cache can be in: fresh, or one call later. *)
Inductive reachable {V : Type} (clone : V -> option V)
    (blank : string -> bool) : Cache V -> Prop :=
| reach_fresh : reachable clone blank fresh
| reach_set c key v ttl now :
    reachable clone blank c -> reachable clone blank (set clone c key v ttl now)
| reach_get c key now :
    reachable clone blank c -> reachable clone blank (snd (get clone c key now))
| reach_delete c key :
    reachable clone blank c -> reachable clone blank (snd (delete c key))
| reach_clear c :
    reachable clone blank c -> reachable clone blank (clear c)
| reach_has c key now :
    reachable clone blank c -> reachable clone blank (snd (has blank c key now)).

(** Every own key starts with "app:" and occurs once. *)
Definition namespaced {V : Type} (c : Cache V) : Prop :=
  Forall (fun e => String.prefix "app:" (fst e) = true) (entries c) /\
  NoDup (map fst (entries c)).

End CacheService.

(* ===================================================================== *)
(** ** [RateLimitGuard.handleRateLimit] *)
(* ===================================================================== *)

Module RateLimitGuard.

(** [{ count, expiresAt }] *)
Record RateRecord : Type := {
  count : Z;
  record_expiresAt : Z
}.

(** The guard's own cache holds such records; their JSON clone is the
    record itself. *)
Definition clone_record (r : RateRecord) : option RateRecord := Some r.

(** The cache service together with the module-level [requestRecords]. *)
Record State : Type := {
  cache : CacheService.Cache RateRecord;
  requestRecords : list (string * list RateRecord)
}.

Definition initial : State :=
  {| cache := CacheService.fresh; requestRecords := [] |}.

(** How a call ends: [true] is returned, or [HttpException('Too many
    requests. Please try again later.', 429)] is thrown. *)
Inductive Verdict : Type :=
| Allowed
| TooManyRequests.

(** [requestRecords[ip] = [record]] *)
Fixpoint remember (rs : list (string * list RateRecord)) (ip : string)
    (r : RateRecord) : list (string * list RateRecord) :=
  match rs with
  | [] => [(ip, [r])]
  | (k, old) :: rest =>
      if String.eqb k ip then (ip, [r]) :: rest
      else (k, old) :: remember rest ip r
  end.

Definition windowMs : Z := 60 * 1000.
Definition maxRequests : Z := 100.

(** [handleRateLimit(ip)] with [ip] the SHA-256 digest in hex.  [now] is
    the guard's own [Date.now()], [t_get] and [t_set] those of the cache
    calls it makes. *)
Definition handleRateLimit (st : State) (ip : string) (now t_get t_set : Z)
    : Verdict * State :=
  let key := "rateLimit:" ++ ip in
  let (found, cache1) := CacheService.get clone_record (cache st) key t_get in
  match found with
  | None =>
      let record := {| count := 1; record_expiresAt := now + windowMs |} in
      (Allowed,
       {| cache := CacheService.set clone_record cache1 key record
                     (inject_Z windowMs / 1000)%Q t_set;
          requestRecords := remember (requestRecords st) ip record |})
  | Some record =>
      if Z.ltb (record_expiresAt record) now then
        let reset := {| count := 1; record_expiresAt := now + windowMs |} in
        (Allowed,
         {| cache := CacheService.set clone_record cache1 key reset
                       (inject_Z windowMs / 1000)%Q t_set;
            requestRecords := remember (requestRecords st) ip reset |})
      else if Z.leb maxRequests (count record) then
        (TooManyRequests,
         {| cache := cache1; requestRecords := requestRecords st |})
      else
        let record' := {| count := count record + 1;
                          record_expiresAt := record_expiresAt record |} in
        (Allowed,
         {| cache := CacheService.set clone_record cache1 key record'
                       (inject_Z (record_expiresAt record - now) / 1000)%Q
                       t_set;
            requestRecords := remember (requestRecords st) ip record' |})
  end.

(** One request: the digest of its address and the three clock readings. *)
Record Request : Type := {
  request_ip : string;
  request_now : Z;
  request_t_get : Z;
  request_t_set : Z
}.

(** A run of requests, one after the other. *)
Fixpoint serve (st : State) (requests : list Request)
    : list Verdict * State :=
  match requests with
  | [] => ([], st)
  | r :: rest =>
      let (v, st1) := handleRateLimit st (request_ip r) (request_now r)
                        (request_t_get r) (request_t_set r) in
      let (vs, st2) := serve st1 rest in
      (v :: vs, st2)
  end.

End RateLimitGuard.

(* ===================================================================== *)
(** ** [successResponse] and [errorResponse] *)
(* ===================================================================== *)

Module ApiResponse.

(** A parameter with a default: the default stands in for [undefined]. *)
Definition or_default (arg default : JsVal) : JsVal :=
  match arg with
  | JUndefined => default
  | _ => arg
  end.

(** [successResponse(data, message = 'Success', status = 200)] *)
Definition successResponse (data message status : JsVal) : JsVal :=
  JObj [("status", or_default status (JNum 200));
        ("data", data);
        ("message", or_default message (JStr "Success"))].

(** [errorResponse(message, status = 500, data = null)] *)
Definition errorResponse (message status data : JsVal) : JsVal :=
  JObj [("status", or_default status (JNum 500));
        ("data", or_default data JNull);
        ("message", message)].

End ApiResponse.

(* ===================================================================== *)
(** ** [AllExceptionsFilter.catch] *)
(* ===================================================================== *)

Module AllExceptionsFilter.

(** [exception.getResponse()]: a string or an object. *)
Inductive HttpResponse : Type :=
| TextResponse (s : string)
| ObjectResponse (o : JsObj).

(** What was thrown, by the [instanceof] tests of the filter, in their
    order. *)
Inductive Exception : Type :=
| HttpException (status : Z) (response : HttpResponse)
| QueryFailedError (driverError : option JsObj) (message : string)
| OtherError (message : string)           (* any other [Error] *)
| NotAnError (v : JsVal).

Section WithStatusNames.
(** [HttpStatus[status]]: the name the enum gives a code, [undefined] for a
    code it does not list. *)
Context (HttpStatus_name : Z -> JsVal).

(** [catch(exception, host)]: the status passed to [response.status] and
    the body passed to [json]. *)
Definition catch (exception : Exception) : Z * JsVal :=
  let status_message :=
    match exception with
    | HttpException status res =>
        (status,
         match res with
         | TextResponse s => JStr s
         | ObjectResponse o => js_or (get o "message") (HttpStatus_name status)
         end)
    | QueryFailedError pgError _ =>
        let code := match pgError with
                    | Some o => get o "code"
                    | None => JUndefined
                    end in
        if strict_eq code (JStr "22P02") then
          (400%Z, JStr "Invalid input format")
        else if strict_eq code (JStr "23505") then
          (409%Z, JStr "Duplicate record")
        else (500%Z, JStr "Something went wrong")
    | OtherError message => (500%Z, JStr message)
    | NotAnError _ => (500%Z, JStr "Something went wrong")
    end in
  (fst status_message,
   ApiResponse.errorResponse (snd status_message)
     (JNum (fst status_message)) JUndefined).
End WithStatusNames.

End AllExceptionsFilter.

(* ===================================================================== *)
(** ** [LoggingInterceptor]: the [sanitize] helper of [intercept] *)
(* ===================================================================== *)

Module LoggingInterceptor.

Definition sensitiveFields : list string :=
  ["password"; "token"; "accessToken"; "refreshToken"; "authorization"].

(** [o[k] = v] *)
Fixpoint assign (o : JsObj) (k : string) (v : JsVal) : JsObj :=
  match o with
  | [] => [(k, v)]
  | (k', x) :: rest =>
      if String.eqb k' k then (k, v) :: rest
      else (k', x) :: assign rest k v
  end.

(** [v !== undefined] *)
Definition is_defined (v : JsVal) : bool :=
  match v with
  | JUndefined => false
  | _ => true
  end.

(** The body of the [forEach] callback. *)
Definition redact (cloned : JsObj) (field_name : string) : JsObj :=
  if is_defined (get cloned field_name)
  then assign cloned field_name (JStr "[REDACTED]")
  else cloned.

(** [sanitize(obj)]; [None] is an [obj] that is [undefined]. *)
Definition sanitize (obj : option JsObj) : option JsObj :=
  match obj with
  | None => None
  | Some o => Some (fold_left redact sensitiveFields o)
  end.

End LoggingInterceptor.

(* ===================================================================== *)
(** ** The write side of [TasksService] and [TasksController.batchProcess] *)
(* ===================================================================== *)

Module Crud.

(** A call to the entity manager inside a transaction. *)
Inductive CrudCall : Type :=
| FindBy (ids : JsVal)                    (* [findBy({ id: In(ids) })] *)
| Remove (tasks : list JsObj)             (* [remove(tasks)] *)
| FindOne (id : JsVal)                    (* [findOne({ where: { id } })] *)
| Save (task : JsObj)                     (* [save(task)] *)
| Delete (id : JsVal).                    (* [delete(id)] *)

(** How the k-th such call ends. *)
Record CrudEnv : Type := {
  findBy_outcome : nat -> Outcome (list JsObj);
  remove_outcome : nat -> option JsVal;          (* [Some e]: it rejects *)
  findOne_outcome : nat -> Outcome (option JsObj);
  save_outcome : nat -> Outcome JsObj;
  delete_outcome : nat -> Outcome JsVal          (* [deleteResult.affected] *)
}.

(** The world of the queue code, and the manager calls made so far. *)
Record Sys : Type := {
  world : World;
  crud_log : list CrudCall
}.

Definition S (A : Type) : Type := Sys -> Outcome A * Sys.

Definition retS {A : Type} (a : A) : S A := fun s => (Return a, s).

Definition throwS {A : Type} (e : JsVal) : S A := fun s => (Throw e, s).

Definition bindS {A B : Type} (m : S A) (f : A -> S B) : S B :=
  fun s =>
    match m s with
    | (Return a, s') => f a s'
    | (Throw e, s') => (Throw e, s')
    end.

Definition try_catchS {A : Type} (m : S A) (h : JsVal -> S A) : S A :=
  fun s =>
    match m s with
    | (Return a, s') => (Return a, s')
    | (Throw e, s') => h e s'
    end.

(** Code of the queue side, run on the [world] part. *)
Definition lift {A : Type} (m : M A) : S A :=
  fun s =>
    let (o, w') := m (world s) in
    (o, {| world := w'; crud_log := crud_log s |}).

Definition logged (s : Sys) (c : CrudCall) : Sys :=
  {| world := world s; crud_log := crud_log s ++ [c] |}.

Section WithEnv.
Context (env : Env) (crud : CrudEnv).

Definition manager_findBy (ids : JsVal) : S (list JsObj) :=
  fun s => (findBy_outcome crud (length (crud_log s)), logged s (FindBy ids)).

Definition manager_remove (tasks : list JsObj) : S JsVal :=
  fun s =>
    (match remove_outcome crud (length (crud_log s)) with
     | Some e => Throw e
     | None => Return JUndefined
     end, logged s (Remove tasks)).

Definition manager_findOne (id : JsVal) : S (option JsObj) :=
  fun s => (findOne_outcome crud (length (crud_log s)), logged s (FindOne id)).

Definition manager_save (task : JsObj) : S JsObj :=
  fun s => (save_outcome crud (length (crud_log s)), logged s (Save task)).

Definition repository_delete (id : JsVal) : S JsVal :=
  fun s => (delete_outcome crud (length (crud_log s)), logged s (Delete id)).

(** [TasksService.bulkDelete(taskIds)]: the value of the transaction is
    awaited and dropped, the method returns nothing. *)
Definition bulkDelete (taskIds : JsVal) : S JsVal :=
  bindS (manager_findBy taskIds) (fun tasks =>
  if Nat.eqb (length tasks) 0 then retS JUndefined
  else bindS (manager_remove tasks) (fun _ => retS JUndefined)).

(** [TasksService.remove(id)]; the exception is
    [NotFoundException(`Task with ID ${id} not found`)], kept as an error
    with that message. *)
Definition remove (id : JsVal) : S JsObj :=
  bindS (manager_findOne id) (fun task =>
  match task with
  | None => throwS (JError ("Task with ID " ++ to_string id ++ " not found"))
  | Some found =>
      bindS (repository_delete id) (fun affected =>
      if strict_eq affected (JNum 0)
      then throwS (JError ("Task with ID " ++ to_string id ++ " not found"))
      else retS found)
  end).

(** [TasksService.findOne(id)] *)
Definition findOne (id : JsVal) : S JsObj :=
  try_catchS
    (bindS (manager_findOne id) (fun task =>
     match task with
     | None =>
         throwS (JError ("Task with ID " ++ to_string id ++ " not found"))
     | Some found => retS found
     end))
    (fun _ =>
       throwS (JError ("Task with ID " ++ to_string id ++ " not found"))).

(** [await p] *)
Definition await {A : Type} (p : Promise A) : M A :=
  match p with
  | Fulfilled a => ret a
  | Rejected e => throw e
  end.

(** Whether a property can be read off [v]: reading one off [null] or
    [undefined] throws a [TypeError]. *)
Definition has_properties (v : JsVal) : bool :=
  match v with
  | JUndefined | JNull => false
  | _ => true
  end.

(** [TasksService.update(id, updateTaskDto)]; [merge] is
    [manager.merge(Task, task, updateTaskDto)], whatever it makes of the
    two, and [type_error] is what the engine throws for [queueError.stack]
    when [queueError] has no properties. *)
Definition update (merge : JsObj -> JsObj -> JsObj) (type_error : JsVal)
    (id : JsVal) (updateTaskDto : JsObj) : S JsObj :=
  bindS (manager_findOne id) (fun task =>
  match task with
  | None => throwS (JError ("Task with ID " ++ to_string id ++ " not found"))
  | Some found =>
      let originalStatus := get found "status" in
      bindS (manager_save (merge found updateTaskDto)) (fun updatedTask =>
      bindS
        (if negb (strict_eq originalStatus (get updatedTask "status")) then
           try_catchS
             (lift (bind (taskQueue_add env "task-status-update"
                            [("taskId", get updatedTask "id");
                             ("status", get updatedTask "status")] None)
                         (fun p => bind (await p) (fun _ => ret tt))))
             (fun queueError =>
                if has_properties queueError then retS tt
                else throwS type_error)
         else retS tt)
        (fun _ => retS updatedTask))
  end).

(** [TasksController.batchProcess(body)] on a body that is an object, as
    the body parser hands one over; [const { tasks, action } = body] reads
    [undefined] for a field the body does not have. *)
Definition batchProcess (body : JsObj) : S JsVal :=
  let taskIds := get body "tasks" in
  let action := get body "action" in
  match taskIds with
  | JArr (first :: others) =>
      if negb (existsb (strict_eq action) [JStr "complete"; JStr "delete"])
      then
        retS (ApiResponse.errorResponse (JStr "Unknown batch action")
                (JNum 400) JUndefined)
      else
        try_catchS
          (bindS
             (if strict_eq action (JStr "complete") then
                lift (TasksService.updateStatus env taskIds
                        (JStr "COMPLETED"))
              else if strict_eq action (JStr "delete") then
                bulkDelete taskIds
              else retS JUndefined)
             (fun result =>
                retS (ApiResponse.successResponse
                        (JObj [("processed",
                                JNum (Z.of_nat (length (first :: others))));
                               ("affected",
                                js_or (field result "affected") (JNum 0))])
                        (JStr "Batch processing completed") (JNum 200))))
          (fun error =>
             retS (ApiResponse.errorResponse
                     (match error with
                      | JError message => JStr message
                      | _ => JStr "Batch processing failed"
                      end)
                     (JNum 500) JUndefined))
  | _ =>
      retS (ApiResponse.errorResponse (JStr "No tasks provided")
              (JNum 400) JUndefined)
  end.
End WithEnv.

End Crud.

(** [pgError?.code], the one thing the filter reads of a driver error. *)
Definition driver_code (driverError : option JsObj) : JsVal :=
  match driverError with
  | Some o => get o "code"
  | None => JUndefined
  end.

(** The three answers of the filter to a [QueryFailedError]. *)
Definition invalid_input : Z * JsVal :=
  (400%Z, JObj [("status", JNum 400); ("data", JNull);
                ("message", JStr "Invalid input format")]).

Definition duplicate_record : Z * JsVal :=
  (409%Z, JObj [("status", JNum 409); ("data", JNull);
                ("message", JStr "Duplicate record")]).

Definition something_went_wrong : Z * JsVal :=
  (500%Z, JObj [("status", JNum 500); ("data", JNull);
                ("message", JStr "Something went wrong")]).

(** *** Scenarios for the write side *)

(** Nothing done yet. *)
Definition at_start : Crud.Sys :=
  {| Crud.world := empty_world; Crud.crud_log := [] |}.

(** The manager finds the two tasks asked for and every call succeeds; a
    saved task comes back COMPLETED. *)
Definition healthy_crud : Crud.CrudEnv :=
  {| Crud.findBy_outcome := fun _ =>
       Return [task_row "t1" "PENDING" 10; task_row "t2" "PENDING" 20];
     Crud.remove_outcome := fun _ => None;
     Crud.findOne_outcome := fun _ => Return (Some (task_row "t1" "PENDING" 10));
     Crud.save_outcome := fun _ => Return (task_row "t1" "COMPLETED" 10);
     Crud.delete_outcome := fun _ => Return (JNum 1) |}.

(** Every call of the manager rejects. *)
Definition crud_down : Crud.CrudEnv :=
  {| Crud.findBy_outcome := fun _ => Throw (JError "connection refused");
     Crud.remove_outcome := fun _ => Some (JError "connection refused");
     Crud.findOne_outcome := fun _ => Throw (JError "connection refused");
     Crud.save_outcome := fun _ => Throw (JError "connection refused");
     Crud.delete_outcome := fun _ => Throw (JError "connection refused") |}.

(** The body [{ tasks: ["t1", "t2"], action }]. *)
Definition batch_body (action : string) : JsObj :=
  [("tasks", JArr [JStr "t1"; JStr "t2"]); ("action", JStr action)].

(** The error of an [add] that failed, at the call or in its promise. *)
Definition enqueue_failure (r : AddResult) : option JsVal :=
  match r with
  | AddThrows e => Some e
  | AddPromise (Rejected e) => Some e
  | AddPromise (Fulfilled _) => None
  end.

(** The [TypeError] of Node for [undefined.stack]. *)
Definition no_stack : JsVal :=
  JError "Cannot read properties of undefined (reading 'stack')".

(** A [merge] that lets the fields of the update come first. *)
Definition fields_of_update_first (task updateTaskDto : JsObj) : JsObj :=
  (updateTaskDto ++ task)%list.

(** The queue is closed: every [add] hands back a promise that rejects. *)
Definition queue_closed : Env :=
  {| clock := 100;
     table := three_overdue;
     find_outcome := fun _ => None;
     update_outcome := fun _ => Return (JNum 1);
     add_outcome := fun _ =>
       AddPromise (Rejected (JError "Connection is closed."));
     conversion_error := cannot_convert;
     destructuring_error := cannot_destructure |}.

(** *** Scenarios for the cache and the guard *)

(** [key.trim() === ''] on keys that hold no white space. *)
Definition blank_without_spaces (key : string) : bool := String.eqb key "".

(** A value with a field [JSON] leaves out. *)
Definition profile : JsVal :=
  JObj [("name", JStr "Ann"); ("nickname", JUndefined)].

(** Three requests from one address and one from another, a second
    apart. *)
Definition four_requests : list RateLimitGuard.Request :=
  [{| RateLimitGuard.request_ip := "9f86d081";
      RateLimitGuard.request_now := 1000;
      RateLimitGuard.request_t_get := 1000;
      RateLimitGuard.request_t_set := 1001 |};
   {| RateLimitGuard.request_ip := "9f86d081";
      RateLimitGuard.request_now := 2000;
      RateLimitGuard.request_t_get := 2000;
      RateLimitGuard.request_t_set := 2001 |};
   {| RateLimitGuard.request_ip := "60303ae2";
      RateLimitGuard.request_now := 3000;
      RateLimitGuard.request_t_get := 3000;
      RateLimitGuard.request_t_set := 3001 |};
   {| RateLimitGuard.request_ip := "9f86d081";
      RateLimitGuard.request_now := 4000;
      RateLimitGuard.request_t_get := 4000;
      RateLimitGuard.request_t_set := 4001 |}].

(* ===================================================================== *)
(** ** Unfolding lemmas for the two loops *)
(* ===================================================================== *)

Lemma retry_loop_step env jobId taskId status attempt lastError w :
  attempt < MAX_ATTEMPTS ->
  retry_loop env jobId taskId status attempt lastError w =
  match TasksService.updateStatus env taskId status w with
  | (Return updatedTask, w') =>
      (Return (JObj [("success", JBool true);
                     ("taskId", updatedTask);
                     ("newStatus", updatedTask)]), w')
  | (Throw err, w') =>
      match attempt_failed env (attempt + 1) jobId taskId err w' with
      | (Return _, w'') =>
          retry_loop env jobId taskId status (attempt + 1) err w''
      | (Throw e, w'') => (Throw e, w'')
      end
  end.
Proof.
  intros Hlt. rewrite retry_loop_equation_1.
  destruct (lt_dec attempt MAX_ATTEMPTS) as [Hl | Hge]; [reflexivity | contradiction].
Qed.

Lemma retry_loop_exhausted env jobId taskId status attempt lastError w :
  ~ attempt < MAX_ATTEMPTS ->
  retry_loop env jobId taskId status attempt lastError w =
  (Return (JObj [("success", JBool false);
                 ("error", JStr "Failed to update task status after 3 attempts");
                 ("detail", optional_message lastError)]), w).
Proof.
  intros Hge. rewrite retry_loop_equation_1.
  destruct (lt_dec attempt MAX_ATTEMPTS) as [Hlt | Hr]; [contradiction | reflexivity].
Qed.

Lemma chunk_loop_step env overdueTasks i successCount failureCount w :
  i < length overdueTasks ->
  chunk_loop env overdueTasks i successCount failureCount w =
  match enqueue_chunk env (slice overdueTasks i (i + CHUNK_SIZE))
          successCount failureCount w with
  | (Return (s, f), w') => chunk_loop env overdueTasks (i + CHUNK_SIZE) s f w'
  | (Throw e, w') => (Throw e, w')
  end.
Proof.
  intros Hlt. rewrite chunk_loop_equation_1.
  destruct (lt_dec i (length overdueTasks)) as [Hl | Hge]; [reflexivity | contradiction].
Qed.

Lemma chunk_loop_done env overdueTasks i successCount failureCount w :
  ~ i < length overdueTasks ->
  chunk_loop env overdueTasks i successCount failureCount w =
  (Return (successCount, failureCount), w).
Proof.
  intros Hge. rewrite chunk_loop_equation_1.
  destruct (lt_dec i (length overdueTasks)) as [Hlt | Hr]; [contradiction | reflexivity].
Qed.

(** One call of [updateStatus] logs one update and ends as the oracle says. *)
Lemma updateStatus_run env taskId status w :
  TasksService.updateStatus env taskId status w =
  let ids := match taskId with JArr _ => taskId | _ => JArr [taskId] end in
  let w' := {| queue_log := queue_log w;
               update_log := update_log w ++
                 [{| update_ids := ids; update_status := status |}];
               find_log := find_log w |} in
  match update_outcome env (length (update_log w)) with
  | Return affected =>
      (Return (JObj [("affected", nullish affected (JNum 0))]), w')
  | Throw e => (Throw e, w')
  end.
Proof.
  unfold TasksService.updateStatus, bind, repository_update, ret. simpl.
  destruct (update_outcome env (length (update_log w))); reflexivity.
Qed.

(** The text of some integer-valued numbers: digit by digit up to [2^53],
    the shortest digits that read back beyond, an exponent from [1e21]. *)
Example number_to_string_samples :
  map number_to_string
    [0; -5; 1000; 2 ^ 53; 2 ^ 60; 10 ^ 20; 10 ^ 21; 2 ^ 70]%Z =
  ["0"; "-5"; "1000"; "9007199254740992"; "1152921504606847000";
   "100000000000000000000"; "1e+21"; "1.1805916207174113e+21"].
Proof. vm_compute. reflexivity. Qed.

(* ===================================================================== *)
(** ** Worlds and logs *)
(* ===================================================================== *)

Lemma with_updates_nil w : with_updates w [] = w.
Proof. destruct w; unfold with_updates; simpl. now rewrite app_nil_r. Qed.

Lemma with_updates_app w us vs :
  with_updates (with_updates w us) vs = with_updates w (us ++ vs).
Proof. unfold with_updates; simpl. now rewrite app_assoc. Qed.

Lemma with_updates_length w us :
  length (update_log (with_updates w us)) = length (update_log w) + length us.
Proof. unfold with_updates; simpl. apply length_app. Qed.

Lemma with_adds_nil w : with_adds w [] = w.
Proof. destruct w; unfold with_adds; simpl. now rewrite app_nil_r. Qed.

Lemma with_adds_app w cs ds :
  with_adds (with_adds w cs) ds = with_adds w (cs ++ ds).
Proof. unfold with_adds; simpl. now rewrite app_assoc. Qed.

Lemma with_adds_length w cs :
  length (queue_log (with_adds w cs)) = length (queue_log w) + length cs.
Proof. unfold with_adds; simpl. apply length_app. Qed.

(* ===================================================================== *)
(** ** The status-update handler *)
(* ===================================================================== *)

Lemma updateStatus_throws env taskId status w e :
  update_outcome env (length (update_log w)) = Throw e ->
  TasksService.updateStatus env taskId status w =
  (Throw e, with_updates w [update_call taskId status]).
Proof. intros H. rewrite updateStatus_run. simpl. now rewrite H. Qed.

Lemma updateStatus_returns env taskId status w a :
  update_outcome env (length (update_log w)) = Return a ->
  TasksService.updateStatus env taskId status w =
  (Return (JObj [("affected", nullish a (JNum 0))]),
   with_updates w [update_call taskId status]).
Proof. intros H. rewrite updateStatus_run. simpl. now rewrite H. Qed.

(** A template gives the text of a value that converts and throws the
    [TypeError] of the conversion otherwise; the world is left alone. *)
Lemma template_run env v w :
  template env v w =
  (if convertible v then Return (to_string v)
   else Throw (conversion_error env), w).
Proof. unfold template. now destruct (convertible v). Qed.

Lemma attempt_failed_run env attempt jobId taskId err w :
  exists text,
    attempt_failed env attempt jobId taskId err w =
    (if convertible taskId && convertible err then Return text
     else Throw (conversion_error env), w).
Proof.
  unfold attempt_failed, bind. rewrite template_run.
  destruct (convertible taskId); [| now exists ""].
  rewrite template_run.
  destruct (convertible err); [| now exists ""].
  eexists. reflexivity.
Qed.

(** A failed attempt whose error is logged leads to the next attempt. *)
Lemma retry_loop_retry env jobId taskId status attempt lastError w e :
  attempt < MAX_ATTEMPTS ->
  update_outcome env (length (update_log w)) = Throw e ->
  convertible taskId = true ->
  convertible e = true ->
  retry_loop env jobId taskId status attempt lastError w =
  retry_loop env jobId taskId status (attempt + 1) e
    (with_updates w [update_call taskId status]).
Proof.
  intros Hlt He Ht Hc. rewrite retry_loop_step by exact Hlt.
  rewrite (updateStatus_throws _ _ _ _ _ He).
  destruct (attempt_failed_run env (attempt + 1) jobId taskId e
              (with_updates w [update_call taskId status])) as [text H].
  rewrite H, Ht, Hc. reflexivity.
Qed.

(** A failed attempt whose error cannot be logged ends the loop: the
    [TypeError] of the template leaves the [catch] block. *)
Lemma retry_loop_breaks env jobId taskId status attempt lastError w e :
  attempt < MAX_ATTEMPTS ->
  update_outcome env (length (update_log w)) = Throw e ->
  convertible taskId && convertible e = false ->
  retry_loop env jobId taskId status attempt lastError w =
  (Throw (conversion_error env),
   with_updates w [update_call taskId status]).
Proof.
  intros Hlt He Hc. rewrite retry_loop_step by exact Hlt.
  rewrite (updateStatus_throws _ _ _ _ _ He).
  destruct (attempt_failed_run env (attempt + 1) jobId taskId e
              (with_updates w [update_call taskId status])) as [text H].
  rewrite H, Hc. reflexivity.
Qed.

(** The loop stops at the first attempt that succeeds: [j] failures, then
    one success, make [j + 1] calls. *)
Lemma retry_loop_succeeds_at env jobId taskId status a :
  convertible taskId = true ->
  forall j attempt lastError w,
    attempt + j < MAX_ATTEMPTS ->
    (forall i, i < j ->
       exists e, update_outcome env (length (update_log w) + i) = Throw e /\
                 convertible e = true) ->
    update_outcome env (length (update_log w) + j) = Return a ->
    retry_loop env jobId taskId status attempt lastError w =
    (Return (update_success a),
     with_updates w (repeat (update_call taskId status) (S j))).
Proof.
  intros Ht.
  induction j as [| j IH]; intros attempt lastError w Hlt Hfail Hok.
  - rewrite Nat.add_0_r in Hok.
    rewrite retry_loop_step by lia.
    now rewrite (updateStatus_returns _ _ _ _ _ Hok).
  - destruct (Hfail 0) as (e & He & Hc); [lia |].
    rewrite Nat.add_0_r in He.
    rewrite (retry_loop_retry _ _ _ _ _ _ _ e) by (assumption || lia).
    rewrite (IH (attempt + 1) e).
    + now rewrite with_updates_app.
    + lia.
    + intros i Hi. rewrite with_updates_length. simpl.
      destruct (Hfail (S i)) as (e' & He' & Hc'); [lia |].
      exists e'. split; [| exact Hc']. rewrite <- He'. f_equal. lia.
    + rewrite with_updates_length. simpl. rewrite <- Hok. f_equal. lia.
Qed.

(** Three failures in a row spend the budget. *)
Lemma retry_loop_all_fail env jobId taskId status lastError w e1 e2 e3 :
  convertible taskId = true ->
  update_outcome env (length (update_log w)) = Throw e1 ->
  update_outcome env (length (update_log w) + 1) = Throw e2 ->
  update_outcome env (length (update_log w) + 2) = Throw e3 ->
  convertible e1 = true -> convertible e2 = true -> convertible e3 = true ->
  retry_loop env jobId taskId status 0 lastError w =
  (Return (update_failure e3),
   with_updates w (repeat (update_call taskId status) 3)).
Proof.
  intros Ht H1 H2 H3 C1 C2 C3.
  rewrite (retry_loop_retry _ _ _ _ _ _ _ e1)
    by (assumption || (unfold MAX_ATTEMPTS; lia)).
  rewrite (retry_loop_retry _ _ _ _ _ _ _ e2)
    by (assumption || (unfold MAX_ATTEMPTS; simpl; lia)
        || (rewrite with_updates_length; exact H2)).
  rewrite (retry_loop_retry _ _ _ _ _ _ _ e3)
    by (assumption || (unfold MAX_ATTEMPTS; simpl; lia)
        || (rewrite !with_updates_length; simpl; rewrite <- H3; f_equal; lia)).
  rewrite retry_loop_exhausted by (unfold MAX_ATTEMPTS; simpl; lia).
  now rewrite !with_updates_app.
Qed.

(** When [taskId] and every error of the repository convert to text, the
    loop ends with a returned value, after at most [MAX_ATTEMPTS - attempt]
    calls and nothing but those calls. *)
Lemma retry_loop_returns env jobId taskId status :
  convertible taskId = true ->
  (forall k e, update_outcome env k = Throw e -> convertible e = true) ->
  forall n attempt lastError w,
    MAX_ATTEMPTS - attempt = n ->
    exists r m,
      m <= n /\
      retry_loop env jobId taskId status attempt lastError w =
      (Return r, with_updates w (repeat (update_call taskId status) m)).
Proof.
  intros Ht Herr.
  induction n as [| n IH]; intros attempt lastError w Hn.
  - exists (update_failure lastError), 0. split; [lia |].
    rewrite retry_loop_exhausted by lia. now rewrite with_updates_nil.
  - destruct (update_outcome env (length (update_log w))) as [a | e] eqn:Ho.
    + exists (update_success a), 1. split; [lia |].
      rewrite retry_loop_step by lia.
      now rewrite (updateStatus_returns _ _ _ _ _ Ho).
    + rewrite (retry_loop_retry _ _ _ _ _ _ _ e)
        by (assumption || lia || exact (Herr _ _ Ho)).
      destruct (IH (attempt + 1) e
                  (with_updates w [update_call taskId status]))
        as (r & m & Hm & Hrun); [lia |].
      exists r, (S m). split; [lia |].
      rewrite Hrun. now rewrite with_updates_app.
Qed.

(** However the loop ends, all it has done is call [updateStatus], at most
    [MAX_ATTEMPTS - attempt] times. *)
Lemma retry_loop_log env jobId taskId status :
  forall n attempt lastError w,
    MAX_ATTEMPTS - attempt = n ->
    exists o m,
      m <= n /\
      retry_loop env jobId taskId status attempt lastError w =
      (o, with_updates w (repeat (update_call taskId status) m)).
Proof.
  induction n as [| n IH]; intros attempt lastError w Hn.
  - exists (Return (update_failure lastError)), 0. split; [lia |].
    rewrite retry_loop_exhausted by lia. now rewrite with_updates_nil.
  - destruct (update_outcome env (length (update_log w))) as [a | e] eqn:Ho.
    + exists (Return (update_success a)), 1. split; [lia |].
      rewrite retry_loop_step by lia.
      now rewrite (updateStatus_returns _ _ _ _ _ Ho).
    + destruct (convertible taskId && convertible e) eqn:Hc.
      * apply andb_prop in Hc. destruct Hc as [Ht Hc].
        rewrite (retry_loop_retry _ _ _ _ _ _ _ e) by (assumption || lia).
        destruct (IH (attempt + 1) e
                    (with_updates w [update_call taskId status]))
          as (o & m & Hm & Hrun); [lia |].
        exists o, (S m). split; [lia |].
        rewrite Hrun. now rewrite with_updates_app.
      * exists (Throw (conversion_error env)), 1. split; [lia |].
        now rewrite (retry_loop_breaks _ _ _ _ _ _ _ e) by (assumption || lia).
Qed.

(** The id of the job is read for the log only. *)
Lemma retry_loop_job_id env taskId status jobId jobId' :
  forall n attempt lastError w,
    MAX_ATTEMPTS - attempt = n ->
    retry_loop env jobId taskId status attempt lastError w =
    retry_loop env jobId' taskId status attempt lastError w.
Proof.
  induction n as [| n IH]; intros attempt lastError w Hn.
  - now rewrite !retry_loop_exhausted by lia.
  - rewrite !retry_loop_step by lia.
    destruct (TasksService.updateStatus env taskId status w)
      as [[r | e] w1]; [reflexivity |].
    destruct (attempt_failed_run env (attempt + 1) jobId taskId e w1)
      as [text H].
    destruct (attempt_failed_run env (attempt + 1) jobId' taskId e w1)
      as [text' H'].
    rewrite H, H'.
    destruct (convertible taskId && convertible e); [| reflexivity].
    apply IH. lia.
Qed.

Lemma is_valid_status_truthy status :
  is_valid_status status = true -> truthy status = true.
Proof.
  unfold is_valid_status, VALID_STATUSES. simpl.
  destruct status; simpl; try discriminate.
  rewrite !orb_false_r. intros H.
  destruct (String.eqb s "") eqn:E; [| reflexivity].
  apply String.eqb_eq in E. subst s. discriminate.
Qed.

(** A payload with a truthy property is an object. *)
Lemma truthy_field_not_nullish data key :
  truthy (field data key) = true -> is_nullish data = false.
Proof. destruct data; simpl; (discriminate || reflexivity). Qed.

Lemma handleStatusUpdate_null env job w :
  is_nullish (job_data job) = true ->
  handleStatusUpdate env job w =
  (Throw (destructuring_error env (job_data job)), w).
Proof. intros H. unfold handleStatusUpdate. now rewrite H. Qed.

Lemma handleStatusUpdate_valid env job w :
  truthy (field (job_data job) "taskId") = true ->
  is_valid_status (field (job_data job) "status") = true ->
  handleStatusUpdate env job w =
  retry_loop env (job_id job) (field (job_data job) "taskId")
    (field (job_data job) "status") 0 JNull w.
Proof.
  intros Hid Hst. unfold handleStatusUpdate.
  rewrite (truthy_field_not_nullish _ _ Hid).
  rewrite Hid, (is_valid_status_truthy _ Hst), Hst. reflexivity.
Qed.

Lemma handleStatusUpdate_invalid env job w :
  is_nullish (job_data job) = false ->
  truthy (field (job_data job) "taskId") = false \/
  truthy (field (job_data job) "status") = false \/
  (is_valid_status (field (job_data job) "status") = false /\
   convertible (field (job_data job) "status") = true) ->
  handleStatusUpdate env job w =
  (Return (JObj [("success", JBool false);
                 ("error", JStr (validation_error
                                   (field (job_data job) "taskId")
                                   (field (job_data job) "status")))]), w).
Proof.
  intros Hdata H. unfold handleStatusUpdate, validation_error.
  rewrite Hdata.
  destruct (negb (truthy (field (job_data job) "taskId"))
            || negb (truthy (field (job_data job) "status"))) eqn:E;
    [reflexivity |].
  apply orb_false_elim in E. destruct E as [E1 E2].
  apply negb_false_iff in E1, E2.
  destruct H as [H | [H | [H Hc]]]; try congruence.
  rewrite H. change (negb false) with true. cbv iota.
  unfold bind. rewrite template_run, Hc. reflexivity.
Qed.

(** A status that is neither valid nor convertible: the template of the
    error message throws. *)
Lemma handleStatusUpdate_no_text env job w :
  truthy (field (job_data job) "taskId") = true ->
  truthy (field (job_data job) "status") = true ->
  is_valid_status (field (job_data job) "status") = false ->
  convertible (field (job_data job) "status") = false ->
  handleStatusUpdate env job w = (Throw (conversion_error env), w).
Proof.
  intros Hid Hs Hst Hc. unfold handleStatusUpdate.
  rewrite (truthy_field_not_nullish _ _ Hid), Hid, Hs, Hst.
  change (negb true || negb true) with false.
  change (negb false) with true. cbv iota.
  unfold bind. rewrite template_run, Hc. reflexivity.
Qed.

Lemma handleStatusUpdate_returns env job w :
  is_nullish (job_data job) = false ->
  convertible (field (job_data job) "taskId") = true ->
  convertible (field (job_data job) "status") = true ->
  (forall k e, update_outcome env k = Throw e -> convertible e = true) ->
  exists r m,
    m <= MAX_ATTEMPTS /\
    handleStatusUpdate env job w =
    (Return r,
     with_updates w
       (repeat (update_call (field (job_data job) "taskId")
                            (field (job_data job) "status")) m)).
Proof.
  intros Hdata Ht Hs Herr.
  destruct (truthy (field (job_data job) "taskId")) eqn:Hid.
  - destruct (is_valid_status (field (job_data job) "status")) eqn:Hst.
    + rewrite handleStatusUpdate_valid by assumption.
      destruct (retry_loop_returns env (job_id job)
                  (field (job_data job) "taskId")
                  (field (job_data job) "status") Ht Herr
                  MAX_ATTEMPTS 0 JNull w)
        as (r & m & Hm & Hrun); [reflexivity |].
      exists r, m. split; assumption.
    + eexists. exists 0. split; [lia |].
      rewrite handleStatusUpdate_invalid by auto.
      simpl. now rewrite with_updates_nil.
  - eexists. exists 0. split; [lia |].
    rewrite handleStatusUpdate_invalid by auto.
    simpl. now rewrite with_updates_nil.
Qed.

(** However the handler ends, all it has done is call [updateStatus] with
    the two values of the payload, at most [MAX_ATTEMPTS] times. *)
Lemma handleStatusUpdate_log env job w :
  exists o m,
    m <= MAX_ATTEMPTS /\
    handleStatusUpdate env job w =
    (o,
     with_updates w
       (repeat (update_call (field (job_data job) "taskId")
                            (field (job_data job) "status")) m)).
Proof.
  destruct (is_nullish (job_data job)) eqn:Hdata.
  { eexists. exists 0. split; [lia |].
    rewrite handleStatusUpdate_null by assumption.
    simpl. now rewrite with_updates_nil. }
  destruct (truthy (field (job_data job) "taskId")) eqn:Hid.
  - destruct (is_valid_status (field (job_data job) "status")) eqn:Hst.
    + rewrite handleStatusUpdate_valid by assumption.
      destruct (retry_loop_log env (job_id job)
                  (field (job_data job) "taskId")
                  (field (job_data job) "status") MAX_ATTEMPTS 0 JNull w)
        as (o & m & Hm & Hrun); [reflexivity |].
      exists o, m. split; assumption.
    + destruct (truthy (field (job_data job) "status")) eqn:Hs.
      * destruct (convertible (field (job_data job) "status")) eqn:Hc.
        -- eexists. exists 0. split; [lia |].
           rewrite handleStatusUpdate_invalid by auto.
           simpl. now rewrite with_updates_nil.
        -- eexists. exists 0. split; [lia |].
           rewrite handleStatusUpdate_no_text by assumption.
           simpl. now rewrite with_updates_nil.
      * eexists. exists 0. split; [lia |].
        rewrite handleStatusUpdate_invalid by auto.
        simpl. now rewrite with_updates_nil.
  - eexists. exists 0. split; [lia |].
    rewrite handleStatusUpdate_invalid by auto.
    simpl. now rewrite with_updates_nil.
Qed.

(* ===================================================================== *)
(** ** The dispatcher *)
(* ===================================================================== *)

Lemma process_of_return env job w r w' :
  dispatch env job w = (Return r, w') ->
  process env job w = (Return r, w').
Proof. intros H. unfold process, try_catch. now rewrite H. Qed.

Lemma process_of_throw env job w e w' :
  dispatch env job w = (Throw e, w') ->
  process env job w = on_error job e w'.
Proof. intros H. unfold process, try_catch. now rewrite H. Qed.

(** The [catch] block of [process] calls no collaborator. *)
Lemma process_world env job w :
  snd (process env job w) = snd (dispatch env job w).
Proof.
  unfold process, try_catch.
  destruct (dispatch env job w) as [[r | e] w']; [reflexivity |].
  unfold on_error.
  now destruct (Z.ltb (attempts_of job) (maxAttempts_of job - 1)).
Qed.

Lemma dispatch_status_update env job w :
  job_name job = "task-status-update" ->
  dispatch env job w = handleStatusUpdate env job w.
Proof. intros H. unfold dispatch. now rewrite H. Qed.

Lemma dispatch_overdue env job w :
  job_name job = "overdue-tasks-notification" ->
  dispatch env job w = handleOverdueTasks env job w.
Proof. intros H. unfold dispatch. now rewrite H. Qed.

(** C2: a job whose name is neither 'task-status-update' nor
    'overdue-tasks-notification' is answered with the structured failure
    [{success: false, error: 'Unknown job type'}]: the dispatcher returns
    it (nothing is re-raised, so the store has nothing to retry), whatever
    the job's attempt count and options, and without any call to the
    repository or to the queue. *)
Theorem C2_unknown_job_type env job w :
  job_name job <> "task-status-update" ->
  job_name job <> "overdue-tasks-notification" ->
  process env job w =
  (Return (JObj [("success", JBool false);
                 ("error", JStr "Unknown job type")]), w).
Proof.
  intros H1 H2. apply process_of_return. unfold dispatch.
  apply String.eqb_neq in H1, H2. now rewrite H1, H2.
Qed.

(** C5, as amended: a status-update payload other than [null] and
    [undefined] whose [taskId] is missing, whose [status] is missing, or
    whose [status] is not one of PENDING, IN_PROGRESS, COMPLETED, CANCELLED
    and can be converted to text, makes the handler return [{success: false,
    error}] at once: nothing is thrown, the world is unchanged (no update
    was attempted), and the dispatcher hands the same value back.  At
    [{taskId: "x", status: "BOGUS"}] the error is "Invalid status value:
    BOGUS". *)
Theorem C5_invalid_payload_fails_fast env job w :
  let taskId := field (job_data job) "taskId" in
  let status := field (job_data job) "status" in
  is_nullish (job_data job) = false ->
  taskId = JUndefined \/
  status = JUndefined \/
  (is_valid_status status = false /\ convertible status = true) ->
  let failure :=
    JObj [("success", JBool false);
          ("error", JStr (validation_error taskId status))] in
  handleStatusUpdate env job w = (Return failure, w) /\
  (job_name job = "task-status-update" ->
   process env job w = (Return failure, w)).
Proof.
  intros taskId status Hdata H failure.
  assert (Hrun : handleStatusUpdate env job w = (Return failure, w)).
  { apply handleStatusUpdate_invalid; [exact Hdata |].
    fold taskId status.
    destruct H as [H | [H | H]]; [left | right; left | right; right];
      try rewrite H; auto. }
  split; [exact Hrun |].
  intros Hname. apply process_of_return.
  now rewrite dispatch_status_update.
Qed.

(** C8, as amended: on a valid payload whose [taskId] can be converted to
    text, and as long as the errors of [updateStatus] can be (every [Error]
    instance can), the handler calls [updateStatus(taskId, status)] at most
    three times, one call right after the other and nothing else in
    between.  It returns [success: true] at the first call that succeeds and
    makes no further call; when all three calls throw it returns
    [{success: false, error, detail}] with [detail] the message of the third
    error, and throws nothing.  Only the payload is read: the job's id,
    attempt count and options play no part. *)
Theorem C8_local_retry_budget env job w :
  let taskId := field (job_data job) "taskId" in
  let status := field (job_data job) "status" in
  let k := length (update_log w) in
  truthy taskId = true ->
  is_valid_status status = true ->
  convertible taskId = true ->
  (forall j a,
     j < MAX_ATTEMPTS ->
     (forall i, i < j ->
        exists e, update_outcome env (k + i) = Throw e /\
                  convertible e = true) ->
     update_outcome env (k + j) = Return a ->
     handleStatusUpdate env job w =
     (Return (update_success a),
      with_updates w (repeat (update_call taskId status) (S j)))) /\
  (forall e1 e2 e3,
     update_outcome env k = Throw e1 ->
     update_outcome env (k + 1) = Throw e2 ->
     update_outcome env (k + 2) = Throw e3 ->
     convertible e1 = true ->
     convertible e2 = true ->
     convertible e3 = true ->
     handleStatusUpdate env job w =
     (Return (update_failure e3),
      with_updates w (repeat (update_call taskId status) MAX_ATTEMPTS))) /\
  (forall job',
     job_data job' = job_data job ->
     handleStatusUpdate env job' w = handleStatusUpdate env job w).
Proof.
  intros taskId status k Hid Hst Ht. split; [| split].
  - intros j a Hj Hfail Hok.
    rewrite handleStatusUpdate_valid by assumption.
    apply retry_loop_succeeds_at; assumption.
  - intros e1 e2 e3 H1 H2 H3 C1 C2 C3.
    rewrite handleStatusUpdate_valid by assumption.
    apply (retry_loop_all_fail env (job_id job) taskId status JNull w
             e1 e2 e3); assumption.
  - intros job' Hdata.
    rewrite (handleStatusUpdate_valid env job') by (rewrite Hdata; assumption).
    rewrite (handleStatusUpdate_valid env job) by assumption.
    rewrite Hdata.
    now apply (retry_loop_job_id env _ _ _ _ MAX_ATTEMPTS).
Qed.

(** C10, as amended: for every payload other than [null] and [undefined]
    whose [taskId] and [status] can be converted to text, and whatever
    [updateStatus] does as long as the errors it throws can be converted to
    text (every [Error] instance can), the status-update handler ends with a
    returned value and not with an exception; so for a job named
    'task-status-update' the [catch] block of [process] is not entered and
    [process] returns that same value. *)
Theorem C10_status_update_never_throws env job w :
  is_nullish (job_data job) = false ->
  convertible (field (job_data job) "taskId") = true ->
  convertible (field (job_data job) "status") = true ->
  (forall k e, update_outcome env k = Throw e -> convertible e = true) ->
  exists r w',
    handleStatusUpdate env job w = (Return r, w') /\
    (job_name job = "task-status-update" ->
     process env job w = (Return r, w')).
Proof.
  intros Hdata Ht Hs Herr.
  destruct (handleStatusUpdate_returns env job w Hdata Ht Hs Herr)
    as (r & m & _ & Hrun).
  exists r. eexists. split; [exact Hrun |].
  intros Hname. apply process_of_return.
  now rewrite dispatch_status_update.
Qed.

(** C1: when the handler of a job raises, [process] re-raises the error as
    long as the attempt count, the number of the delivery being processed,
    is below max attempts; when the attempt count equals max attempts (or is
    beyond it) [process] returns [{success: false, error}] and raises
    nothing. *)
Theorem C1_retry_decision env job w e w' :
  dispatch env job w = (Throw e, w') ->
  ((attempt_count job < maxAttempts_of job)%Z ->
   process env job w = (Throw e, w')) /\
  ((attempt_count job = maxAttempts_of job)%Z ->
   process env job w = (Return (final_failure e), w')) /\
  ((maxAttempts_of job < attempt_count job)%Z ->
   process env job w = (Return (final_failure e), w')).
Proof.
  intros Hd. rewrite (process_of_throw _ _ _ _ _ Hd).
  unfold on_error, throw, ret, final_failure, attempt_count.
  repeat split; intros H.
  - assert (E : (attempts_of job <? maxAttempts_of job - 1)%Z = true)
      by (apply Z.ltb_lt; lia).
    now rewrite E.
  - assert (E : (attempts_of job <? maxAttempts_of job - 1)%Z = false)
      by (apply Z.ltb_ge; lia).
    now rewrite E.
  - assert (E : (attempts_of job <? maxAttempts_of job - 1)%Z = false)
      by (apply Z.ltb_ge; lia).
    now rewrite E.
Qed.

(* ===================================================================== *)
(** ** Enqueueing one job per task *)
(* ===================================================================== *)

Lemma taskQueue_add_run env name data w :
  taskQueue_add env name data None w =
  let c := {| call_name := name; call_data := data; call_opts := None;
              call_result := add_outcome env (length (queue_log w)) |} in
  match add_outcome env (length (queue_log w)) with
  | AddThrows e => (Throw e, with_adds w [c])
  | AddPromise p => (Return p, with_adds w [c])
  end.
Proof. reflexivity. Qed.

Lemma js_map_ext {A B : Type} (f f' : A -> M B) :
  (forall x w, f x w = f' x w) ->
  forall l w, js_map f l w = js_map f' l w.
Proof.
  intros Hf. induction l as [| x l IH]; intros w; [reflexivity |].
  simpl. unfold bind. rewrite Hf.
  destruct (f' x w) as [[y | e] w1]; [| reflexivity].
  now rewrite IH.
Qed.

Lemma js_map_cons {A B : Type} (f : A -> M B) x l w :
  js_map f (x :: l) w =
  match f x w with
  | (Return y, w1) =>
      match js_map f l w1 with
      | (Return ys, w2) => (Return (y :: ys), w2)
      | (Throw e, w2) => (Throw e, w2)
      end
  | (Throw e, w1) => (Throw e, w1)
  end.
Proof.
  simpl. unfold bind, ret.
  destruct (f x w) as [[y | e] w1]; [| reflexivity].
  destruct (js_map f l w1) as [[ys | e] w2]; reflexivity.
Qed.

Lemma bind_ret_r {A : Type} (m : M A) w : bind m ret w = m w.
Proof. unfold bind, ret. now destruct (m w) as [[a | e] w']. Qed.

Lemma add_calls_app env name payload k l1 l2 :
  add_calls env name payload k (l1 ++ l2) =
  (add_calls env name payload k l1 ++
   add_calls env name payload (k + length l1) l2)%list.
Proof.
  revert k. induction l1 as [| t l1 IH]; intros k; simpl.
  - now rewrite Nat.add_0_r.
  - rewrite IH. do 3 f_equal. lia.
Qed.

Lemma add_calls_length env name payload k l :
  length (add_calls env name payload k l) = length l.
Proof. revert k. induction l; intros k; simpl; auto. Qed.

Section OnePerTask.
Context (env : Env) (name : string) (payload : JsObj -> JsObj).
Context {B : Type} (g : Promise JsVal -> B).

Local Abbreviation enqueue_one := (enqueue_for env name payload g).

Lemma enqueue_for_run task w :
  enqueue_one task w =
  let c := add_call env name payload (length (queue_log w)) task in
  match add_outcome env (length (queue_log w)) with
  | AddThrows e => (Throw e, with_adds w [c])
  | AddPromise p => (Return (g p), with_adds w [c])
  end.
Proof.
  unfold enqueue_for, bind. rewrite taskQueue_add_run. cbv zeta.
  unfold add_call.
  destruct (add_outcome env (length (queue_log w))); reflexivity.
Qed.

(** A [map] over the tasks either enqueues for every task, or stops at the
    first [add] that throws at the call site. *)
Lemma js_map_add_cases :
  forall tasks w,
    (exists ps,
        js_map enqueue_one tasks w =
        (Return (map g ps),
         with_adds w (add_calls env name payload (length (queue_log w)) tasks))
        /\ map call_result
             (add_calls env name payload (length (queue_log w)) tasks)
           = map AddPromise ps)
    \/
    (exists e n,
        n < length tasks /\
        add_outcome env (length (queue_log w) + n) = AddThrows e /\
        js_map enqueue_one tasks w =
        (Throw e,
         with_adds w (add_calls env name payload (length (queue_log w))
                        (firstn (S n) tasks)))).
Proof.
  induction tasks as [| task rest IH]; intros w.
  - left. exists []. simpl. rewrite with_adds_nil. auto.
  - rewrite js_map_cons, enqueue_for_run. cbv zeta.
    destruct (add_outcome env (length (queue_log w))) as [e | p] eqn:Ho.
    + right. exists e, 0. rewrite Nat.add_0_r. simpl.
      repeat split; [lia | assumption].
    + set (c := add_call env name payload (length (queue_log w)) task).
      assert (Hlen : length (queue_log (with_adds w [c]))
                     = S (length (queue_log w)))
        by (rewrite with_adds_length; simpl; lia).
      destruct (IH (with_adds w [c])) as
        [(ps & Hrun & Hres) | (e & n & Hn & He & Hrun)];
        rewrite Hlen in *; rewrite Hrun.
      * left. exists (p :: ps). rewrite with_adds_app. simpl.
        split; [reflexivity |].
        now rewrite Ho, Hres.
      * right. exists e, (S n). repeat split.
        -- simpl. lia.
        -- rewrite <- He. f_equal. lia.
        -- now rewrite with_adds_app.
Qed.

End OnePerTask.

(* ===================================================================== *)
(** ** The scanner *)
(* ===================================================================== *)

Import OverdueTasksService.

Lemma findOverdueTasks_run env where_ w :
  TasksService.findOverdueTasks env where_ w =
  match find_outcome env (length (find_log w)) with
  | Some e => (Throw e, with_find w (overdue_find where_))
  | None => (Return (query_result env where_),
             with_find w (overdue_find where_))
  end.
Proof. reflexivity. Qed.



Lemma settled_counts cs ps :
  map call_result cs = map AddPromise ps ->
  count_fulfilled cs + count_rejected cs = length cs.
Proof.
  unfold count_fulfilled, count_rejected. revert ps.
  induction cs as [| c cs IH]; intros [| p ps] H; try discriminate;
    [reflexivity |].
  simpl in H. injection H as Hc Hrest. specialize (IH _ Hrest).
  simpl. unfold is_fulfilled at 1, is_rejected at 1. rewrite Hc.
  destruct p; simpl; lia.
Qed.

Lemma scan_map_is_enqueue_for env tasks w :
  js_map (fun task =>
            taskQueue_add env "overdue-tasks-notification"
              [("taskId", get task "id")] None) tasks w =
  js_map (enqueue_for env "overdue-tasks-notification" notification_payload
            (fun p => p)) tasks w.
Proof.
  apply js_map_ext. intros task w0. unfold enqueue_for.
  symmetry. apply (bind_ret_r
    (taskQueue_add env "overdue-tasks-notification"
       (notification_payload task) None)).
Qed.




(* ===================================================================== *)
(** ** Chunks *)
(* ===================================================================== *)

(** Induction along the indices the [for] loop visits. *)
Lemma chunk_index_ind (len : nat) (P : nat -> Prop) :
  (forall i, ~ i < len -> P i) ->
  (forall i, i < len -> P (i + CHUNK_SIZE) -> P i) ->
  forall i, P i.
Proof.
  intros Hdone Hstep i.
  remember (len - i) as n eqn:Hn.
  revert i Hn. induction n as [n IH] using lt_wf_ind. intros i Hn.
  destruct (lt_dec i len) as [Hlt | Hge]; [| now apply Hdone].
  apply Hstep; [assumption |].
  apply (IH (len - (i + CHUNK_SIZE))); [unfold CHUNK_SIZE; lia | reflexivity].
Qed.

Lemma chunks_from_step l i :
  i < length l ->
  chunks_from l i = slice l i (i + CHUNK_SIZE) :: chunks_from l (i + CHUNK_SIZE).
Proof.
  intros Hlt. rewrite chunks_from_equation_1.
  destruct (lt_dec i (length l)) as [Hl | Hge]; [reflexivity | contradiction].
Qed.

Lemma chunks_from_done l i :
  ~ i < length l -> chunks_from l i = [].
Proof.
  intros Hge. rewrite chunks_from_equation_1.
  destruct (lt_dec i (length l)) as [Hlt | Hr]; [contradiction | reflexivity].
Qed.

Lemma slice_chunk {A : Type} (l : list A) i :
  slice l i (i + CHUNK_SIZE) = firstn CHUNK_SIZE (skipn i l).
Proof. unfold slice. f_equal. lia. Qed.

Lemma slice_length {A : Type} (l : list A) i j :
  length (slice l i j) = Nat.min (j - i) (length l - i).
Proof. unfold slice. now rewrite length_firstn, length_skipn. Qed.

(** The chunks, put end to end, are the tasks from index [i] on. *)
Lemma chunks_from_concat l :
  forall i, concat (chunks_from l i) = skipn i l.
Proof.
  induction i as [i Hge | i Hlt IH] using (chunk_index_ind (length l)).
  - rewrite chunks_from_done by assumption.
    simpl. symmetry. apply skipn_all2. lia.
  - rewrite chunks_from_step by assumption. simpl.
    rewrite IH, slice_chunk.
    etransitivity; [| apply (firstn_skipn CHUNK_SIZE)].
    f_equal. rewrite skipn_skipn. f_equal. lia.
Qed.

(** There are [ceil((N - i) / CHUNK_SIZE)] of them. *)
Lemma chunks_from_count l :
  forall i,
    length (chunks_from l i) =
    (length l - i + (CHUNK_SIZE - 1)) / CHUNK_SIZE.
Proof.
  induction i as [i Hge | i Hlt IH] using (chunk_index_ind (length l)).
  - rewrite chunks_from_done by assumption.
    replace (length l - i) with 0 by lia.
    reflexivity.
  - rewrite chunks_from_step by assumption. simpl length. rewrite IH.
    unfold CHUNK_SIZE in *.
    destruct (le_lt_dec (length l - i) 50) as [Hsmall | Hbig].
    + replace (length l - (i + 50)) with 0 by lia.
      change ((0 + (50 - 1)) / 50) with 0.
      apply Nat.div_unique with (r := length l - i - 1); lia.
    + replace (length l - i + (50 - 1))
        with (length l - (i + 50) + (50 - 1) + 1 * 50) by lia.
      rewrite Nat.div_add by lia. lia.
Qed.

(** Every chunk holds between 1 and [CHUNK_SIZE] tasks. *)
Lemma chunks_from_sizes l :
  forall i,
    Forall (fun chunk => 1 <= length chunk <= CHUNK_SIZE) (chunks_from l i).
Proof.
  induction i as [i Hge | i Hlt IH] using (chunk_index_ind (length l)).
  - rewrite chunks_from_done by assumption. constructor.
  - rewrite chunks_from_step by assumption. constructor; [| exact IH].
    rewrite slice_length. unfold CHUNK_SIZE. lia.
Qed.

(** 120 tasks are cut into chunks of 50, 50 and 20. *)
Lemma chunks_of_120 l :
  length l = 120 -> map (@length JsObj) (chunks_from l 0) = [50; 50; 20].
Proof.
  intros Hl.
  rewrite chunks_from_step by lia.
  rewrite chunks_from_step by (unfold CHUNK_SIZE; lia).
  rewrite chunks_from_step by (unfold CHUNK_SIZE; lia).
  rewrite chunks_from_done by (unfold CHUNK_SIZE; lia).
  simpl map. rewrite !slice_length. unfold CHUNK_SIZE. rewrite Hl.
  reflexivity.
Qed.

(** The loop is the loop body run over those chunks. *)
Lemma chunk_loop_chunks env l :
  forall i s f w,
    chunk_loop env l i s f w = run_chunks env (chunks_from l i) s f w.
Proof.
  induction i as [i Hge | i Hlt IH] using (chunk_index_ind (length l));
    intros s f w.
  - rewrite chunk_loop_done, chunks_from_done by assumption. reflexivity.
  - rewrite chunk_loop_step, chunks_from_step by assumption. simpl.
    destruct (enqueue_chunk env (slice l i (i + CHUNK_SIZE)) s f w)
      as [[[s' f'] | e] w']; [apply IH | reflexivity].
Qed.

(* ===================================================================== *)
(** ** The overdue-notification handler *)
(* ===================================================================== *)

Lemma made_for_incl name payload t1 t2 c :
  incl t1 t2 -> made_for name payload t1 c -> made_for name payload t2 c.
Proof.
  intros Hincl (Hn & Ho & task & Hin & Hd).
  repeat split; try assumption. exists task. auto.
Qed.

Lemma add_calls_made_for env name payload tasks :
  forall sub k,
    incl sub tasks ->
    Forall (made_for name payload tasks) (add_calls env name payload k sub).
Proof.
  induction sub as [| t sub IH]; intros k Hincl; simpl; constructor.
  - repeat split. exists t. split; [apply Hincl; now left | reflexivity].
  - apply IH. intros x Hx. apply Hincl. now right.
Qed.

Lemma incl_firstn {A : Type} n (l : list A) : incl (firstn n l) l.
Proof.
  intros x Hx. rewrite <- (firstn_skipn n l). apply in_or_app. now left.
Qed.

(** One chunk: all of it is counted as enqueued, unless an [add] throws at
    the call site, and then all of it is counted as failed. *)
Lemma enqueue_chunk_cases env chunk s f w :
  enqueue_chunk env chunk s f w =
  (Return (s + length chunk, f),
   with_adds w (add_calls env "task-status-update" child_payload
                  (length (queue_log w)) chunk))
  \/
  (exists n,
      n < length chunk /\
      (exists e, add_outcome env (length (queue_log w) + n) = AddThrows e) /\
      enqueue_chunk env chunk s f w =
      (Return (s, f + length chunk),
       with_adds w (add_calls env "task-status-update" child_payload
                      (length (queue_log w)) (firstn (S n) chunk)))).
Proof.
  unfold enqueue_chunk, try_catch, bind.
  change (js_map _ chunk w)
    with (js_map (enqueue_for env "task-status-update" child_payload
                    (fun _ => JUndefined)) chunk w).
  destruct (js_map_add_cases env "task-status-update" child_payload
              (fun _ => JUndefined) chunk w)
    as [(ps & Hrun & _) | (e & n & Hn & He & Hrun)]; rewrite Hrun.
  - left. reflexivity.
  - right. exists n. repeat split; [assumption | now exists e].
Qed.

(** Whatever the queue does, the loop ends normally, every task is counted
    once, as enqueued or as failed, and every [add] made is a child job for
    one of the tasks. *)
Lemma run_chunks_total env :
  forall cs s f w,
  exists s' f' calls,
    run_chunks env cs s f w = (Return (s', f'), with_adds w calls) /\
    s' + f' = s + f + length (concat cs) /\
    Forall (made_for "task-status-update" child_payload (concat cs)) calls.
Proof.
  induction cs as [| chunk rest IH]; intros s f w.
  - exists s, f, []. simpl. rewrite with_adds_nil. repeat split; [lia | constructor].
  - simpl run_chunks.
    assert (Hstep : exists s1 f1 calls1,
               enqueue_chunk env chunk s f w =
                 (Return (s1, f1), with_adds w calls1) /\
               s1 + f1 = s + f + length chunk /\
               Forall (made_for "task-status-update" child_payload chunk)
                 calls1).
    { destruct (enqueue_chunk_cases env chunk s f w)
        as [Hrun | (n & Hn & _ & Hrun)].
      - eexists _, _, _. split; [exact Hrun |]. split; [lia |].
        apply add_calls_made_for, incl_refl.
      - eexists _, _, _. split; [exact Hrun |]. split; [lia |].
        apply add_calls_made_for, incl_firstn. }
    destruct Hstep as (s1 & f1 & calls1 & Hrun & Hsum & Hcalls).
    rewrite Hrun.
    destruct (IH s1 f1 (with_adds w calls1))
      as (s' & f' & calls2 & Hrest & Hsum' & Hcalls').
    exists s', f', (calls1 ++ calls2)%list. rewrite Hrest, with_adds_app.
    split; [reflexivity |]. simpl concat. rewrite length_app.
    split; [lia |].
    apply Forall_app. split.
    + eapply Forall_impl; [| exact Hcalls].
      intros c. apply made_for_incl, incl_appl, incl_refl.
    + eapply Forall_impl; [| exact Hcalls'].
      intros c. apply made_for_incl, incl_appr, incl_refl.
Qed.

(** With an async queue nothing is ever counted as failed. *)
Lemma run_chunks_async env :
  async_queue env ->
  forall cs s f w,
    run_chunks env cs s f w =
    (Return (s + length (concat cs), f),
     with_adds w (add_calls env "task-status-update" child_payload
                    (length (queue_log w)) (concat cs))).
Proof.
  intros Hasync. induction cs as [| chunk rest IH]; intros s f w.
  - simpl. now rewrite Nat.add_0_r, with_adds_nil.
  - simpl run_chunks.
    destruct (enqueue_chunk_cases env chunk s f w)
      as [Hrun | (n & _ & (e & He) & _)].
    + rewrite Hrun, IH. rewrite with_adds_length, add_calls_length.
      rewrite with_adds_app. simpl concat.
      rewrite add_calls_app, length_app. do 3 f_equal. lia.
    + destruct (Hasync (length (queue_log w) + n)) as [p Hp]. congruence.
Qed.



Lemma handleOverdueTasks_run env job w :
  handleOverdueTasks env job w =
  let w1 := with_find w (overdue_find []) in
  match find_outcome env (length (find_log w)) with
  | Some e => (Throw e, w1)
  | None =>
      match query_result env [] with
      | [] => (Return (JObj [("success", JBool true);
                             ("processed", JNum 0)]), w1)
      | _ :: _ =>
          match run_chunks env (chunks_from (query_result env []) 0) 0 0 w1
          with
          | (Return counts, w2) =>
              (Return (fanout_summary (fst counts) (snd counts)), w2)
          | (Throw e, w2) => (Throw e, w2)
          end
      end
  end.
Proof.
  unfold handleOverdueTasks, try_catch. unfold bind at 1.
  rewrite findOverdueTasks_run. cbv zeta.
  destruct (find_outcome env (length (find_log w))) as [e |];
    [reflexivity |].
  destruct (query_result env []) as [| t ts] eqn:Hq; [reflexivity |].
  change (Nat.eqb (length (t :: ts)) 0) with false. cbv iota beta.
  unfold bind. rewrite chunk_loop_chunks.
  destruct (run_chunks env (chunks_from (t :: ts) 0) 0 0
              (with_find w (overdue_find []))) as [[counts | e] w2];
    reflexivity.
Qed.

Lemma selected_rows_have_no_id row :
  get (select_fields ["status"] row) "id" = JUndefined.
Proof.
  induction row as [| [k v] row IH]; [reflexivity |].
  unfold select_fields in *. simpl.
  destruct (String.eqb k "status") eqn:E; simpl; [| exact IH].
  apply String.eqb_eq in E. subst k. simpl. exact IH.
Qed.

(** What the overdue query resolves with has no [id]. *)
Lemma query_result_has_no_id env where_ task :
  In task (query_result env where_) -> get task "id" = JUndefined.
Proof.
  unfold query_result. intros H. apply in_map_iff in H.
  destruct H as (row & <- & _). apply selected_rows_have_no_id.
Qed.

(** Every [add] the handler makes, whatever the queue does, is a child job
    for one of the rows of its own query. *)
Lemma handleOverdueTasks_log env job w :
  exists cs,
    snd (handleOverdueTasks env job w) =
      with_adds (with_find w (overdue_find [])) cs /\
    Forall (made_for "task-status-update" child_payload (query_result env []))
      cs.
Proof.
  rewrite handleOverdueTasks_run. cbv zeta.
  destruct (find_outcome env (length (find_log w))) as [e |].
  { exists []. simpl. rewrite with_adds_nil. split; [reflexivity | constructor]. }
  destruct (query_result env []) as [| t ts] eqn:Hq.
  { exists []. simpl. rewrite with_adds_nil. split; [reflexivity | constructor]. }
  destruct (run_chunks_total env (chunks_from (t :: ts) 0) 0 0
              (with_find w (overdue_find [])))
    as (s' & f' & cs & Hrun & _ & Hcs).
  rewrite Hrun. exists cs. split; [reflexivity |].
  now rewrite chunks_from_concat in Hcs.
Qed.

(** When the query succeeds with N > 0 rows the handler ends normally and
    counts each row once, as processed or as failed. *)
Lemma handleOverdueTasks_counts_every_task env job w :
  find_outcome env (length (find_log w)) = None ->
  query_result env [] <> [] ->
  exists processed failed w',
    handleOverdueTasks env job w =
      (Return (fanout_summary processed failed), w') /\
    processed + failed = length (query_result env []).
Proof.
  intros Hfind Hne. rewrite handleOverdueTasks_run, Hfind. cbv zeta.
  destruct (query_result env []) as [| t ts] eqn:Hq; [contradiction |].
  destruct (run_chunks_total env (chunks_from (t :: ts) 0) 0 0
              (with_find w (overdue_find [])))
    as (s' & f' & cs & Hrun & Hsum & _).
  rewrite Hrun. exists s', f'. eexists. split; [reflexivity |].
  rewrite chunks_from_concat in Hsum. exact Hsum.
Qed.

(** An [add] that throws at the call site is caught: its chunk is counted
    as failed and the chunks after it are still enqueued. *)
Example sync_throw_is_caught :
  fst (handleOverdueTasks sixty_first_add_throws (notification_job 0 None)
         empty_world) = Return (fanout_summary 70 50) /\
  length (queue_log (snd (handleOverdueTasks sixty_first_add_throws
                            (notification_job 0 None) empty_world))) = 81.
Proof. split; vm_compute; reflexivity. Qed.

(** Every [add] the scanner makes, whatever the queue does, is a
    notification job without options. *)
Lemma checkOverdueTasks_log env w :
  exists cs,
    snd (checkOverdueTasks env w) =
      with_adds (with_find w (overdue_find (scanner_where env))) cs /\
    Forall (made_for "overdue-tasks-notification" notification_payload
              (query_result env (scanner_where env))) cs.
Proof.
  unfold checkOverdueTasks, try_catch, scan. unfold bind at 1.
  rewrite findOverdueTasks_run. fold (scanner_where env).
  destruct (find_outcome env (length (find_log w))) as [e |].
  { exists []. simpl. rewrite with_adds_nil. split; [reflexivity | constructor]. }
  set (tasks := query_result env (scanner_where env)).
  destruct (Nat.eqb (length tasks) 0).
  { exists []. simpl. rewrite with_adds_nil. split; [reflexivity | constructor]. }
  unfold bind. rewrite scan_map_is_enqueue_for.
  destruct (js_map_add_cases env "overdue-tasks-notification"
              notification_payload (fun p => p) tasks
              (with_find w (overdue_find (scanner_where env))))
    as [(ps & Hrun & _) | (e & n & _ & _ & Hrun)]; rewrite Hrun.
  - eexists. split; [reflexivity |]. apply add_calls_made_for, incl_refl.
  - eexists. split; [reflexivity |]. apply add_calls_made_for, incl_firstn.
Qed.

Lemma async_calls_settle env name payload :
  async_queue env ->
  forall tasks k,
  exists ps,
    map call_result (add_calls env name payload k tasks) = map AddPromise ps.
Proof.
  intros Hasync. induction tasks as [| t tasks IH]; intros k.
  - now exists [].
  - destruct (Hasync k) as [p Hp]. destruct (IH (S k)) as [ps Hps].
    exists (p :: ps). simpl. now rewrite Hp, Hps.
Qed.

Lemma second_add_rejected_async : async_queue second_add_rejected.
Proof. intros k. simpl. destruct (Nat.eqb k 1); eauto. Qed.

Lemma one_task_async : async_queue one_task.
Proof. intros k. simpl. eauto. Qed.

(* ===================================================================== *)
(** ** The claims about the fan-out and about the retry decision *)
(* ===================================================================== *)

(** C3 (the code departs from the claim): the handler does cut the N > 0
    rows of its query into [ceil(N / 50)] chunks and does enqueue chunk
    after chunk; but the promises [add] hands back are dropped, so with the
    async queue of the application a failed enqueue, which is a rejected
    promise, is neither caught nor counted: the summary is always
    [processed: N, failed: 0], however many enqueues were rejected. *)
Theorem C3_rejected_enqueues_counted_as_processed env job w :
  let tasks := query_result env [] in
  let cs := add_calls env "task-status-update" child_payload
              (length (queue_log w)) tasks in
  async_queue env ->
  find_outcome env (length (find_log w)) = None ->
  tasks <> [] ->
  handleOverdueTasks env job w =
    (Return (fanout_summary (length tasks) 0),
     with_adds (with_find w (overdue_find [])) cs) /\
  length (chunks_from tasks 0) = (length tasks + 49) / 50 /\
  count_fulfilled cs + count_rejected cs = length tasks.
Proof.
  intros tasks cs Hasync Hfind Hne. split; [| split].
  - rewrite handleOverdueTasks_run, Hfind. cbv zeta. fold tasks.
    destruct tasks as [| t ts] eqn:Ht; [contradiction |].
    rewrite (run_chunks_async env Hasync). simpl fst. simpl snd.
    rewrite chunks_from_concat. reflexivity.
  - rewrite chunks_from_count. unfold CHUNK_SIZE. f_equal. lia.
  - destruct (async_calls_settle env "task-status-update" child_payload
                Hasync tasks (length (queue_log w))) as [ps Hps].
    fold cs in Hps. rewrite (settled_counts cs ps Hps).
    apply add_calls_length.
Qed.

(** C6 (the code departs from the claim): the handler's query selects the
    column [status] only, so the rows it maps over have no [id]: every child
    job is enqueued with [taskId: undefined], and the dispatcher answers a
    job with that name and payload with 'Missing required data'.  With the
    one task "t1" in the table the single child payload is
    [{taskId: undefined, status: "PENDING"}]. *)
Theorem C6_child_jobs_carry_no_task_id :
  (forall env job w,
      exists cs,
        snd (handleOverdueTasks env job w) =
          with_adds (with_find w (overdue_find [])) cs /\
        Forall (fun c =>
                  call_name c = "task-status-update" /\
                  get (call_data c) "taskId" = JUndefined /\
                  forall env' job' w',
                    job_name job' = call_name c ->
                    job_data job' = JObj (call_data c) ->
                    process env' job' w' = (Return missing_data, w')) cs) /\
  handleOverdueTasks one_task (notification_job 0 None) empty_world =
    (Return (fanout_summary 1 0),
     with_adds (with_find empty_world (overdue_find []))
       [{| call_name := "task-status-update";
           call_data := [("taskId", JUndefined); ("status", JStr "PENDING")];
           call_opts := None;
           call_result := AddPromise (Fulfilled (JStr "job")) |}]).
Proof.
  split; [| vm_compute; reflexivity].
  intros env job w.
  destruct (handleOverdueTasks_log env job w) as (cs & Hw & Hcs).
  exists cs. split; [exact Hw |].
  eapply Forall_impl; [| exact Hcs].
  intros c (Hname & _ & task & Hin & Hdata).
  assert (Hid : get (call_data c) "taskId" = JUndefined).
  { rewrite Hdata. simpl. now apply query_result_has_no_id in Hin. }
  repeat split; try assumption.
  intros env' job' w' Hn Hd. apply process_of_return.
  rewrite dispatch_status_update by congruence.
  rewrite handleStatusUpdate_invalid.
  - rewrite Hd. simpl field. rewrite Hid. reflexivity.
  - now rewrite Hd.
  - left. rewrite Hd. simpl field. now rewrite Hid.
Qed.

(** C9: a job without an [attempts] option has max attempts 1 in the error
    path of [process], so whatever its handler raises comes back as the
    structured failure and nothing is re-raised, on the first delivery as
    on any other.  The scanner and the notification handler make every
    [add] without options, so the jobs they enqueue have no [attempts]
    option. *)
Theorem C9_default_max_attempts :
  (forall env job w,
      opts_attempts job = None ->
      maxAttempts_of job = 1%Z /\
      (exists r w', process env job w = (Return r, w')) /\
      (forall e w',
          dispatch env job w = (Throw e, w') ->
          process env job w = (Return (final_failure e), w'))) /\
  (forall env w,
      exists cs,
        snd (checkOverdueTasks env w) =
          with_adds (with_find w (overdue_find (scanner_where env))) cs /\
        Forall (fun c => call_opts c = None) cs) /\
  (forall env job w,
      exists cs,
        snd (handleOverdueTasks env job w) =
          with_adds (with_find w (overdue_find [])) cs /\
        Forall (fun c => call_opts c = None) cs).
Proof.
  split; [| split].
  - intros env job w Hopts.
    assert (Hmax : maxAttempts_of job = 1%Z)
      by (unfold maxAttempts_of; now rewrite Hopts).
    assert (Hcatch : forall e w',
               dispatch env job w = (Throw e, w') ->
               process env job w = (Return (final_failure e), w')).
    { intros e w' Hd. rewrite (process_of_throw _ _ _ _ _ Hd).
      unfold on_error. rewrite Hmax.
      assert (E : (attempts_of job <? 1 - 1)%Z = false).
      { apply Z.ltb_ge. unfold attempts_of.
        destruct (job_attemptsMade job); lia. }
      now rewrite E. }
    repeat split; try assumption.
    destruct (dispatch env job w) as [[r | e] w'] eqn:Hd.
    + exists r, w'. now apply process_of_return.
    + exists (final_failure e), w'. now apply Hcatch.
  - intros env w.
    destruct (checkOverdueTasks_log env w) as (cs & Hw & Hcs).
    exists cs. split; [exact Hw |].
    eapply Forall_impl; [| exact Hcs].
    intros c (_ & Hopts & _). exact Hopts.
  - intros env job w.
    destruct (handleOverdueTasks_log env job w) as (cs & Hw & Hcs).
    exists cs. split; [exact Hw |].
    eapply Forall_impl; [| exact Hcs].
    intros c (_ & Hopts & _). exact Hopts.
Qed.

(** C5 as stated fails: [{toString: 1}] is not one of the four statuses,
    and for the payload [{taskId: "x", status: {toString: 1}}] the handler
    does not return a failure: the template of its error message throws.
    Nor does it return for the payload [null], which has no [taskId]: the
    destructuring throws. *)
Lemma C5_counterexample :
  is_valid_status
    (field (job_data (status_job (JStr "x") no_text)) "status") = false /\
  handleStatusUpdate one_task (status_job (JStr "x") no_text) empty_world =
    (Throw cannot_convert, empty_world) /\
  field (job_data null_payload_job) "taskId" = JUndefined /\
  handleStatusUpdate one_task null_payload_job empty_world =
    (Throw (cannot_destructure JNull), empty_world).
Proof. repeat split. Qed.

(** C8 as stated fails: the payload [{taskId: {toString: 1}, status:
    "COMPLETED"}] passes the validation, and with the database down the
    handler makes one call and then throws from its [catch] block, where the
    claim has it make three calls and return.  The same happens on
    [{taskId: "x", status: "COMPLETED"}] when the update rejects with a
    value that has no text. *)
Lemma C8_counterexample :
  truthy no_text = true /\
  is_valid_status (JStr "COMPLETED") = true /\
  handleStatusUpdate storage_down
    (status_job no_text (JStr "COMPLETED")) empty_world =
    (Throw cannot_convert,
     with_updates empty_world [update_call no_text (JStr "COMPLETED")]) /\
  handleStatusUpdate update_rejects_no_text
    (status_job (JStr "x") (JStr "COMPLETED")) empty_world =
    (Throw cannot_convert,
     with_updates empty_world [update_call (JStr "x") (JStr "COMPLETED")]).
Proof.
  split; [reflexivity |]. split; [reflexivity |]. split.
  - rewrite handleStatusUpdate_valid by reflexivity.
    apply (retry_loop_breaks storage_down _ _ _ _ _ _
             (JError "connection refused")); try reflexivity.
    unfold MAX_ATTEMPTS. lia.
  - rewrite handleStatusUpdate_valid by reflexivity.
    apply (retry_loop_breaks update_rejects_no_text _ _ _ _ _ _ no_text);
      try reflexivity.
    unfold MAX_ATTEMPTS. lia.
Qed.

(** C10 as stated fails: for the payload [null] the destructuring at the
    top of the handler throws, and [process], with attempts left, re-raises
    the error.  The handler also throws on a [status] or a [taskId] that
    has no text, and when the update rejects with a value that has none. *)
Lemma C10_counterexample :
  handleStatusUpdate one_task null_payload_job empty_world =
    (Throw (cannot_destructure JNull), empty_world) /\
  process one_task null_payload_job empty_world =
    (Throw (cannot_destructure JNull), empty_world) /\
  fst (handleStatusUpdate one_task (status_job (JStr "x") no_text)
         empty_world) = Throw cannot_convert /\
  fst (handleStatusUpdate storage_down
         (status_job no_text (JStr "COMPLETED")) empty_world)
    = Throw cannot_convert /\
  fst (handleStatusUpdate update_rejects_no_text
         (status_job (JStr "x") (JStr "COMPLETED")) empty_world)
    = Throw cannot_convert.
Proof.
  split; [reflexivity |]. split; [reflexivity |]. split; [reflexivity |].
  split.
  - rewrite handleStatusUpdate_valid by reflexivity.
    rewrite (retry_loop_breaks storage_down _ _ _ _ _ _
               (JError "connection refused")); try reflexivity.
    unfold MAX_ATTEMPTS. lia.
  - rewrite handleStatusUpdate_valid by reflexivity.
    rewrite (retry_loop_breaks update_rejects_no_text _ _ _ _ _ _ no_text);
      try reflexivity.
    unfold MAX_ATTEMPTS. lia.
Qed.

(* ===================================================================== *)
(** ** The claims at concrete inputs *)
(* ===================================================================== *)

(** The database is down and the job was enqueued with [attempts: 3]: the
    first delivery (attempt count 1) is re-raised, the third (attempt count
    3) is answered with the failure. *)
Lemma C1_retry_decision_witness :
  process storage_down (notification_job 0 (Some 3%Z)) empty_world =
    (Throw (JError "connection refused"),
     with_find empty_world (overdue_find [])) /\
  process storage_down (notification_job 2 (Some 3%Z)) empty_world =
    (Return (final_failure (JError "connection refused")),
     with_find empty_world (overdue_find [])).
Proof.
  split.
  - apply (proj1 (C1_retry_decision storage_down
                    (notification_job 0 (Some 3%Z)) empty_world
                    (JError "connection refused")
                    (with_find empty_world (overdue_find [])) eq_refl)).
    vm_compute. reflexivity.
  - apply (proj1 (proj2 (C1_retry_decision storage_down
                    (notification_job 2 (Some 3%Z)) empty_world
                    (JError "connection refused")
                    (with_find empty_world (overdue_find [])) eq_refl))).
    vm_compute. reflexivity.
Defined.

(** A 'cleanup' job, enqueued with [attempts: 3], is not retried. *)
Lemma C2_unknown_job_type_witness :
  process storage_down cleanup_job empty_world =
  (Return (JObj [("success", JBool false);
                 ("error", JStr "Unknown job type")]), empty_world).
Proof.
  apply (C2_unknown_job_type storage_down cleanup_job empty_world);
    simpl; discriminate.
Defined.

(** Three rows, the second enqueue rejected: still [processed: 3]. *)
Lemma C3_rejected_enqueues_counted_as_processed_witness :
  fst (handleOverdueTasks second_add_rejected (notification_job 0 None)
         empty_world) = Return (fanout_summary 3 0) /\
  count_rejected
    (queue_log (snd (handleOverdueTasks second_add_rejected
                       (notification_job 0 None) empty_world))) = 1.
Proof.
  destruct (C3_rejected_enqueues_counted_as_processed second_add_rejected
              (notification_job 0 None) empty_world
              second_add_rejected_async eq_refl
              ltac:(vm_compute; discriminate)) as (Hrun & _ & _).
  rewrite Hrun. split; reflexivity.
Defined.


(** [{taskId: "x", status: "BOGUS"}], and [{taskId: "x", status: 1e21}]. *)
Lemma C5_invalid_payload_fails_fast_witness :
  handleStatusUpdate one_task (status_job (JStr "x") (JStr "BOGUS"))
    empty_world =
  (Return (JObj [("success", JBool false);
                 ("error", JStr "Invalid status value: BOGUS")]),
   empty_world) /\
  handleStatusUpdate one_task (status_job (JStr "x") (JNum (10 ^ 21)))
    empty_world =
  (Return (JObj [("success", JBool false);
                 ("error", JStr "Invalid status value: 1e+21")]),
   empty_world).
Proof.
  split.
  - exact (proj1 (C5_invalid_payload_fails_fast one_task
                    (status_job (JStr "x") (JStr "BOGUS")) empty_world
                    eq_refl
                    (or_intror (or_intror (conj eq_refl eq_refl))))).
  - exact (proj1 (C5_invalid_payload_fails_fast one_task
                    (status_job (JStr "x") (JNum (10 ^ 21))) empty_world
                    eq_refl
                    (or_intror (or_intror (conj eq_refl eq_refl))))).
Defined.


(** One deadlock, then success: two calls.  Database down: three calls,
    and [detail] is the message of the last error. *)
Lemma C8_local_retry_budget_witness :
  handleStatusUpdate first_update_fails
    (status_job (JStr "x") (JStr "COMPLETED")) empty_world =
    (Return (update_success (JNum 1)),
     with_updates empty_world
       (repeat (update_call (JStr "x") (JStr "COMPLETED")) 2)) /\
  handleStatusUpdate storage_down
    (status_job (JStr "x") (JStr "COMPLETED")) empty_world =
    (Return (JObj [("success", JBool false);
                   ("error",
                    JStr "Failed to update task status after 3 attempts");
                   ("detail", JStr "connection refused")]),
     with_updates empty_world
       (repeat (update_call (JStr "x") (JStr "COMPLETED")) 3)).
Proof.
  split.
  - apply (proj1 (C8_local_retry_budget first_update_fails
                    (status_job (JStr "x") (JStr "COMPLETED")) empty_world
                    eq_refl eq_refl eq_refl) 1 (JNum 1)).
    + unfold MAX_ATTEMPTS. lia.
    + intros i Hi. assert (i = 0) by lia. subst i.
      exists (JError "deadlock detected"). split; reflexivity.
    + reflexivity.
  - apply (proj1 (proj2 (C8_local_retry_budget storage_down
                    (status_job (JStr "x") (JStr "COMPLETED")) empty_world
                    eq_refl eq_refl eq_refl))
             (JError "connection refused") (JError "connection refused")
             (JError "connection refused")); reflexivity.
Defined.

(** A notification job enqueued without options, database down, first
    delivery: the failure is returned at once. *)
Lemma C9_default_max_attempts_witness :
  maxAttempts_of (notification_job 0 None) = 1%Z /\
  process storage_down (notification_job 0 None) empty_world =
    (Return (final_failure (JError "connection refused")),
     with_find empty_world (overdue_find [])).
Proof.
  destruct (proj1 C9_default_max_attempts storage_down
              (notification_job 0 None) empty_world eq_refl)
    as (Hmax & _ & Hcatch).
  split; [exact Hmax |].
  apply Hcatch. reflexivity.
Defined.

(** Database down: the handler and the dispatcher both return. *)
Lemma C10_status_update_never_throws_witness :
  exists r w',
    handleStatusUpdate storage_down
      (status_job (JStr "x") (JStr "COMPLETED")) empty_world = (Return r, w')
    /\
    process storage_down
      (status_job (JStr "x") (JStr "COMPLETED")) empty_world = (Return r, w').
Proof.
  destruct (C10_status_update_never_throws storage_down
              (status_job (JStr "x") (JStr "COMPLETED")) empty_world
              eq_refl eq_refl eq_refl)
    as (r & w' & Hrun & Hproc).
  - intros k e H. vm_compute in H. injection H as <-. reflexivity.
  - exists r, w'. split; [exact Hrun |].
    apply Hproc. reflexivity.
Defined.

(* ===================================================================== *)
(** ** Further properties of the handlers and of the scanner *)
(* ===================================================================== *)

Lemma query_without_filter env :
  query_result env [] = map (select_fields ["status"]) (table env).
Proof.
  unfold query_result. f_equal.
  induction (table env) as [| row rows IH]; [reflexivity |].
  simpl. now rewrite IH.
Qed.

(** X1: when the handler's query succeeds with no row, the handler returns
    [{success: true, processed: 0}], enqueues nothing, and [process] hands
    that value back. *)
Theorem X1_no_rows_nothing_enqueued env job w :
  find_outcome env (length (find_log w)) = None ->
  table env = [] ->
  handleOverdueTasks env job w =
    (Return (JObj [("success", JBool true); ("processed", JNum 0)]),
     with_find w (overdue_find [])) /\
  (job_name job = "overdue-tasks-notification" ->
   process env job w =
     (Return (JObj [("success", JBool true); ("processed", JNum 0)]),
      with_find w (overdue_find []))).
Proof.
  intros Hfind Htable.
  assert (Hrun : handleOverdueTasks env job w =
                 (Return (JObj [("success", JBool true);
                                ("processed", JNum 0)]),
                  with_find w (overdue_find []))).
  { rewrite handleOverdueTasks_run, Hfind, query_without_filter, Htable.
    reflexivity. }
  split; [exact Hrun |].
  intros Hname. apply process_of_return.
  now rewrite dispatch_overdue.
Qed.

Lemma X1_no_rows_nothing_enqueued_witness :
  process empty_table (notification_job 0 None) empty_world =
  (Return (JObj [("success", JBool true); ("processed", JNum 0)]),
   with_find empty_world (overdue_find [])).
Proof.
  apply (proj2 (X1_no_rows_nothing_enqueued empty_table
                  (notification_job 0 None) empty_world eq_refl eq_refl)).
  reflexivity.
Defined.



(** X3: when the scanner's query succeeds with no row, the cycle returns
    [{status: 200, success: true, data: [], message: 'No overdue tasks
    found'}] and enqueues nothing. *)
Theorem X3_scanner_nothing_overdue env w :
  find_outcome env (length (find_log w)) = None ->
  query_result env (scanner_where env) = [] ->
  checkOverdueTasks env w =
    (Return (JObj [("status", JNum 200);
                   ("success", JBool true);
                   ("data", JArr []);
                   ("message", JStr "No overdue tasks found")]),
     with_find w (overdue_find (scanner_where env))) /\
  queue_log (with_find w (overdue_find (scanner_where env))) = queue_log w.
Proof.
  intros Hfind Hq. split; [| reflexivity].
  unfold checkOverdueTasks, try_catch, scan. unfold bind at 1.
  rewrite findOverdueTasks_run, Hfind. fold (scanner_where env).
  rewrite Hq. reflexivity.
Qed.

Lemma X3_scanner_nothing_overdue_witness :
  checkOverdueTasks nothing_due empty_world =
  (Return (JObj [("status", JNum 200);
                 ("success", JBool true);
                 ("data", JArr []);
                 ("message", JStr "No overdue tasks found")]),
   with_find empty_world (overdue_find (scanner_where nothing_due))).
Proof.
  apply (proj1 (X3_scanner_nothing_overdue nothing_due empty_world
                  eq_refl eq_refl)).
Defined.



Lemma chunks_from_nth l :
  forall j i,
    i + CHUNK_SIZE * j < length l ->
    nth_error (chunks_from l i) j =
    Some (slice l (i + CHUNK_SIZE * j) (i + CHUNK_SIZE * j + CHUNK_SIZE)).
Proof.
  induction j as [| j IH]; intros i Hlt.
  - rewrite Nat.mul_0_r, Nat.add_0_r in *.
    now rewrite chunks_from_step.
  - rewrite chunks_from_step by lia. simpl nth_error.
    rewrite IH by lia. do 2 f_equal; lia.
Qed.

(** X5: the [for] loop of the handler works through the rows in consecutive
    slices: the loop is its body run over [chunks_from], the j-th chunk is
    [slice(50 j, 50 j + 50)], the chunks put end to end are the rows, each
    chunk holds between 1 and 50 rows, and there are [ceil(N / 50)] of
    them. *)
Theorem X5_chunks_partition_the_rows env (l : list JsObj) :
  (forall s f w,
      chunk_loop env l 0 s f w = run_chunks env (chunks_from l 0) s f w) /\
  concat (chunks_from l 0) = l /\
  (forall j,
      CHUNK_SIZE * j < length l ->
      nth_error (chunks_from l 0) j =
      Some (slice l (CHUNK_SIZE * j) (CHUNK_SIZE * j + CHUNK_SIZE))) /\
  Forall (fun chunk => 1 <= length chunk <= CHUNK_SIZE) (chunks_from l 0) /\
  length (chunks_from l 0) = (length l + (CHUNK_SIZE - 1)) / CHUNK_SIZE.
Proof.
  repeat split.
  - intros s f w. apply chunk_loop_chunks.
  - now rewrite chunks_from_concat.
  - intros j Hj. now rewrite (chunks_from_nth l j 0).
  - apply chunks_from_sizes.
  - rewrite chunks_from_count. now rewrite Nat.sub_0_r.
Qed.

Lemma X5_chunks_partition_the_rows_witness :
  nth_error (chunks_from (repeat (task_row "t" "PENDING" 10) 120) 0) 2 =
  Some (slice (repeat (task_row "t" "PENDING" 10) 120)
          (CHUNK_SIZE * 2) (CHUNK_SIZE * 2 + CHUNK_SIZE)).
Proof.
  apply (proj1 (proj2 (proj2 (X5_chunks_partition_the_rows empty_table
                                (repeat (task_row "t" "PENDING" 10) 120))))).
  vm_compute. lia.
Defined.

Lemma selected_rows_keep_status row :
  get (select_fields ["status"] row) "status" = get row "status".
Proof.
  induction row as [| [key v] row IH]; [reflexivity |].
  unfold select_fields in *.
  change (filter _ ((key, v) :: row))
    with (if existsb (String.eqb key) ["status"]
          then (key, v) :: filter (fun kv => existsb (String.eqb (fst kv)) ["status"]) row
          else filter (fun kv => existsb (String.eqb (fst kv)) ["status"]) row).
  change (existsb (String.eqb key) ["status"])
    with (String.eqb key "status" || false).
  rewrite orb_false_r.
  change (get ((key, v) :: row) "status")
    with (if String.eqb key "status" then v else get row "status").
  destruct (String.eqb key "status") eqn:E; [| exact IH].
  change (get ((key, v) :: _) "status")
    with (if String.eqb key "status" then v else
            get (filter (fun kv => existsb (String.eqb (fst kv)) ["status"]) row) "status").
  now rewrite E.
Qed.

Lemma child_calls_keep_status env table_rows :
  forall k,
    map (fun c => get (call_data c) "status")
        (add_calls env "task-status-update" child_payload k
           (map (select_fields ["status"]) table_rows))
    = map (fun row => get row "status") table_rows.
Proof.
  induction table_rows as [| row rest IH]; intros k; [reflexivity |].
  simpl. rewrite IH. f_equal. apply selected_rows_keep_status.
Qed.

(** X6: the handler queries with an empty [where], so it fans out over every
    row of the table, overdue or not and whatever its status: with an async
    queue it makes one [add] per row, in table order, with the row's own
    status, and reports all of them as processed. *)
Theorem X6_fan_out_covers_the_whole_table env job w :
  let rows := map (select_fields ["status"]) (table env) in
  async_queue env ->
  find_outcome env (length (find_log w)) = None ->
  table env <> [] ->
  handleOverdueTasks env job w =
    (Return (fanout_summary (length (table env)) 0),
     with_adds (with_find w (overdue_find []))
       (add_calls env "task-status-update" child_payload
          (length (queue_log w)) rows)) /\
  map (fun c => get (call_data c) "status")
      (add_calls env "task-status-update" child_payload
         (length (queue_log w)) rows)
  = map (fun row => get row "status") (table env).
Proof.
  intros rows Hasync Hfind Hne. split.
  - rewrite handleOverdueTasks_run, Hfind, query_without_filter. cbv zeta.
    fold rows.
    destruct rows as [| r rs] eqn:Hrows.
    { destruct (table env); [contradiction | discriminate]. }
    rewrite (run_chunks_async env Hasync). simpl fst. simpl snd.
    rewrite chunks_from_concat. simpl skipn.
    rewrite <- Hrows. unfold rows. rewrite length_map. reflexivity.
  - apply child_calls_keep_status.
Qed.

Lemma X6_fan_out_covers_the_whole_table_witness :
  fst (handleOverdueTasks mixed_table (notification_job 0 None) empty_world)
    = Return (fanout_summary 3 0) /\
  map (fun c => get (call_data c) "status")
      (queue_log (snd (handleOverdueTasks mixed_table
                         (notification_job 0 None) empty_world)))
    = [JStr "PENDING"; JStr "COMPLETED"; JStr "PENDING"].
Proof.
  destruct (X6_fan_out_covers_the_whole_table mixed_table
              (notification_job 0 None) empty_world
              ltac:(intros k; simpl; eauto) eq_refl
              ltac:(simpl; discriminate)) as [Hrun Hstatus].
  rewrite Hrun. split; reflexivity.
Defined.

(** X7: the scanner's query selects the column [status] only as well, so
    every notification job the scanner enqueues, whatever the queue does,
    has the payload [{taskId: undefined}] and no options. *)
Theorem X7_notification_jobs_carry_no_task_id env w :
  exists cs,
    snd (checkOverdueTasks env w) =
      with_adds (with_find w (overdue_find (scanner_where env))) cs /\
    Forall (fun c =>
              call_name c = "overdue-tasks-notification" /\
              call_data c = [("taskId", JUndefined)] /\
              call_opts c = None) cs.
Proof.
  destruct (checkOverdueTasks_log env w) as (cs & Hw & Hcs).
  exists cs. split; [exact Hw |].
  eapply Forall_impl; [| exact Hcs].
  intros c (Hname & Hopts & task & Hin & Hdata).
  repeat split; try assumption.
  rewrite Hdata. unfold notification_payload.
  now rewrite (query_result_has_no_id _ _ _ Hin).
Qed.

(** X8: processing a 'task-status-update' job, however it ends, never
    touches the queue and never queries for tasks: all it does to the
    outside is call [updateStatus(taskId, status)], with the payload's own
    two values, at most three times. *)
Theorem X8_status_update_only_updates env job w :
  job_name job = "task-status-update" ->
  exists m,
    m <= MAX_ATTEMPTS /\
    snd (process env job w) =
      with_updates w
        (repeat (update_call (field (job_data job) "taskId")
                             (field (job_data job) "status")) m) /\
    queue_log (snd (process env job w)) = queue_log w /\
    find_log (snd (process env job w)) = find_log w.
Proof.
  intros Hname.
  destruct (handleStatusUpdate_log env job w) as (o & m & Hm & Hrun).
  exists m. rewrite process_world, dispatch_status_update, Hrun by assumption.
  repeat split; assumption.
Qed.

Lemma X8_status_update_only_updates_witness :
  exists m,
    m <= MAX_ATTEMPTS /\
    snd (process storage_down (status_job (JStr "x") (JStr "COMPLETED"))
           empty_world) =
      with_updates empty_world
        (repeat (update_call (JStr "x") (JStr "COMPLETED")) m).
Proof.
  destruct (X8_status_update_only_updates storage_down
              (status_job (JStr "x") (JStr "COMPLETED")) empty_world
              eq_refl) as (m & Hm & Hp & _).
  exists m. split; assumption.
Defined.

(** X9: the validation of [handleStatusUpdate] tests truthiness, so on a
    payload object a [taskId] or [status] that is present but falsy (0, the
    empty string, false, null) is answered like a missing one, with
    'Missing required data', and this check comes first: it wins over an
    invalid status. *)
Theorem X9_falsy_values_count_as_missing env job w :
  is_nullish (job_data job) = false ->
  truthy (field (job_data job) "taskId") = false \/
  truthy (field (job_data job) "status") = false ->
  handleStatusUpdate env job w = (Return missing_data, w).
Proof.
  intros Hdata H. rewrite handleStatusUpdate_invalid by tauto.
  unfold validation_error, missing_data.
  destruct H as [H | H]; rewrite H; simpl; rewrite ?orb_true_r; reflexivity.
Qed.

Lemma X9_falsy_values_count_as_missing_witness :
  handleStatusUpdate one_task (status_job (JNum 0) (JStr "BOGUS"))
    empty_world = (Return missing_data, empty_world).
Proof.
  apply (X9_falsy_values_count_as_missing one_task
           (status_job (JNum 0) (JStr "BOGUS")) empty_world).
  - reflexivity.
  - left. reflexivity.
Defined.

(* ===================================================================== *)
(** ** The cache *)
(* ===================================================================== *)

Module CacheFacts.
Import CacheService.

Section Entries.
Context {V : Type}.
Implicit Types es : list (string * Item V).

Lemma own_store_same es key item : own (store es key item) key = Some item.
Proof.
  induction es as [| [k old] es IH]; simpl.
  - now rewrite String.eqb_refl.
  - destruct (String.eqb k key) eqn:E; simpl.
    + now rewrite String.eqb_refl.
    + now rewrite E.
Qed.

Lemma own_store_other es key item key' :
  key' <> key -> own (store es key item) key' = own es key'.
Proof.
  intros Hne. induction es as [| [k old] es IH]; simpl.
  - destruct (String.eqb key key') eqn:E; [| reflexivity].
    apply String.eqb_eq in E. congruence.
  - destruct (String.eqb k key) eqn:E; simpl.
    + apply String.eqb_eq in E. subst k.
      destruct (String.eqb key key') eqn:E'; [| reflexivity].
      apply String.eqb_eq in E'. congruence.
    + now rewrite IH.
Qed.

Lemma own_remove_same es key : own (remove key es) key = None.
Proof.
  induction es as [| [k old] es IH]; simpl; [reflexivity |].
  destruct (String.eqb k key) eqn:E; simpl; [exact IH |].
  now rewrite E.
Qed.

Lemma own_remove_other es key key' :
  key' <> key -> own (remove key es) key' = own es key'.
Proof.
  intros Hne. induction es as [| [k old] es IH]; simpl; [reflexivity |].
  destruct (String.eqb k key) eqn:E; simpl.
  - apply String.eqb_eq in E. subst k.
    destruct (String.eqb key key') eqn:E'; [| exact IH].
    apply String.eqb_eq in E'. congruence.
  - now rewrite IH.
Qed.

Lemma remove_absent es key : own es key = None -> remove key es = es.
Proof.
  induction es as [| [k old] es IH]; simpl; [reflexivity |].
  destruct (String.eqb k key) eqn:E; [discriminate |].
  intros H. simpl. now rewrite IH.
Qed.

Lemma remove_store_absent es key item :
  own es key = None -> remove key (store es key item) = es.
Proof.
  induction es as [| [k old] es IH]; simpl.
  - now rewrite String.eqb_refl.
  - destruct (String.eqb k key) eqn:E; [discriminate |].
    intros H. simpl. rewrite E. simpl. now rewrite IH.
Qed.

Lemma own_none_not_in es key :
  own es key = None -> ~ In key (map fst es).
Proof.
  induction es as [| [k old] es IH]; simpl; [tauto |].
  destruct (String.eqb k key) eqn:E; [discriminate |].
  intros H [Hk | Hin]; [| now apply IH].
  subst k. now rewrite String.eqb_refl in E.
Qed.

Lemma store_Forall (P : string * Item V -> Prop) es key item :
  Forall P es -> P (key, item) -> Forall P (store es key item).
Proof.
  intros Hes Hnew. induction Hes as [| [k old] es Hk Hes IH]; simpl.
  - constructor; [exact Hnew | constructor].
  - destruct (String.eqb k key); constructor; assumption.
Qed.

Lemma store_keys es key item :
  map fst (store es key item) =
  match own es key with
  | Some _ => map fst es
  | None => (map fst es ++ [key])%list
  end.
Proof.
  induction es as [| [k old] es IH]; simpl; [reflexivity |].
  destruct (String.eqb k key) eqn:E; simpl.
  - apply String.eqb_eq in E. now subst k.
  - rewrite IH. now destruct (own es key).
Qed.
End Entries.

Lemma namespaced_key_is_longer key : ("app:" ++ key)%string <> key.
Proof.
  intros H. apply (f_equal String.length) in H. simpl in H. lia.
Qed.

Lemma namespaced_key_has_prefix key :
  String.prefix "app:" ("app:" ++ key) = true.
Proof. apply String.prefix_correct. simpl. destruct key; reflexivity. Qed.

Lemma namespaced_key_not_inherited key :
  existsb (String.eqb ("app:" ++ key)) object_prototype_names = false.
Proof. reflexivity. Qed.

Lemma lookup_namespaced {V : Type} (c : Cache V) key :
  lookup c ("app:" ++ key) =
  match own (entries c) ("app:" ++ key) with
  | Some item => Own item
  | None => Missing
  end.
Proof.
  unfold lookup. destruct (own (entries c) ("app:" ++ key)); [reflexivity |].
  rewrite namespaced_key_not_inherited. now rewrite andb_false_r.
Qed.

End CacheFacts.

Section CacheProperties.
Context {V : Type} (clone : V -> option V) (blank : string -> bool).
Implicit Types c : CacheService.Cache V.

Lemma Qle_bool_false a b : (b < a)%Q -> Qle_bool a b = false.
Proof.
  intros H. destruct (Qle_bool a b) eqn:E; [| reflexivity].
  apply Qle_bool_iff in E. lra.
Qed.

Lemma Qle_bool_true a b : (a <= b)%Q -> Qle_bool a b = true.
Proof. intros H. now apply Qle_bool_iff. Qed.

Lemma set_stores c key v safe ttl now :
  key <> "" -> (0 < ttl)%Q -> clone v = Some safe ->
  CacheService.set clone c key v ttl now =
  {| CacheService.inherits := CacheService.inherits c;
     CacheService.entries :=
       CacheService.store (CacheService.entries c) ("app:" ++ key)
         {| CacheService.value := safe;
            CacheService.expiresAt := (inject_Z now + ttl * 1000)%Q |} |}.
Proof.
  intros Hkey Httl Hclone. unfold CacheService.set.
  apply String.eqb_neq in Hkey. rewrite Hkey.
  rewrite (Qle_bool_false ttl 0 Httl). now rewrite Hclone.
Qed.

Lemma set_cases c key v ttl now :
  CacheService.set clone c key v ttl now = c \/
  exists item,
    CacheService.set clone c key v ttl now =
    {| CacheService.inherits := CacheService.inherits c;
       CacheService.entries :=
         CacheService.store (CacheService.entries c) ("app:" ++ key) item |}.
Proof.
  unfold CacheService.set.
  destruct (String.eqb key ""); [now left |].
  destruct (Qle_bool ttl 0); [now left |].
  destruct (clone v) as [safe |]; [| now left].
  right. eauto.
Qed.

Lemma lookup_after_set c key v ttl now key' :
  key' <> ("app:" ++ key)%string ->
  CacheService.lookup (CacheService.set clone c key v ttl now) key' =
  CacheService.lookup c key'.
Proof.
  intros Hne.
  destruct (set_cases c key v ttl now) as [-> | [item ->]]; [reflexivity |].
  unfold CacheService.lookup. simpl.
  now rewrite CacheFacts.own_store_other.
Qed.

Lemma get_answer_by_lookup c1 c2 key now :
  CacheService.lookup c1 key = CacheService.lookup c2 key ->
  fst (CacheService.get clone c1 key now) =
  fst (CacheService.get clone c2 key now).
Proof.
  intros H. unfold CacheService.get. rewrite H.
  destruct (String.eqb key ""); [reflexivity |].
  destruct (CacheService.lookup c2 key) as [item | |]; try reflexivity.
  destruct (Qle_bool (CacheService.expiresAt item) (inject_Z now));
    [reflexivity |].
  now destruct (clone (CacheService.value item)).
Qed.

Lemma has_answer_by_lookup c1 c2 key now :
  CacheService.lookup c1 key = CacheService.lookup c2 key ->
  fst (CacheService.has blank c1 key now) =
  fst (CacheService.has blank c2 key now).
Proof.
  intros H. unfold CacheService.has. rewrite H.
  destruct (blank key); [reflexivity |].
  destruct (CacheService.lookup c2 key) as [item | |]; simpl;
    try reflexivity.
  now destruct (CacheService.Qlt_bool (CacheService.expiresAt item)
                  (inject_Z now)).
Qed.

(** X10: for a time to live of a whole number of seconds, and instants
    that are whole milliseconds up to [2^53] (there the sums and products of
    the code lose nothing), a value stored with [set(key, v, ttl)] is read
    back, cloned once more, by [get] under the key "app:" + key as long as
    the clock reads less than the instant of the [set] plus [ttl * 1000];
    from that instant on [get] answers [null] and removes the entry. *)
Theorem X10_cache_round_trip c key v v1 v2 (seconds t0 t1 : Z) :
  key <> "" ->
  (0 < seconds)%Z ->
  (0 <= t0)%Z ->
  (t0 + seconds * 1000 <= 2 ^ 53)%Z ->
  clone v = Some v1 ->
  clone v1 = Some v2 ->
  let c1 := CacheService.set clone c key v (inject_Z seconds) t0 in
  ((t1 < t0 + seconds * 1000)%Z ->
   CacheService.get clone c1 ("app:" ++ key) t1 = (Some v2, c1)) /\
  ((t0 + seconds * 1000 <= t1)%Z ->
   fst (CacheService.get clone c1 ("app:" ++ key) t1) = None /\
   CacheService.lookup (snd (CacheService.get clone c1 ("app:" ++ key) t1))
     ("app:" ++ key) = CacheService.Missing).
Proof.
  intros Hkey Hs Ht0 Hsafe Hv Hv1 c1.
  assert (Httl : (0 < inject_Z seconds)%Q).
  { change 0%Q with (inject_Z 0). now rewrite <- Zlt_Qlt. }
  assert (Hc1 := set_stores c key v v1 (inject_Z seconds) t0 Hkey Httl Hv).
  fold c1 in Hc1.
  assert (Hsum : (inject_Z t0 + inject_Z seconds * 1000 ==
                  inject_Z (t0 + seconds * 1000))%Q).
  { rewrite inject_Z_plus, inject_Z_mult. reflexivity. }
  assert (Hlook : CacheService.lookup c1 ("app:" ++ key) =
                  CacheService.Own
                    {| CacheService.value := v1;
                       CacheService.expiresAt :=
                         (inject_Z t0 + inject_Z seconds * 1000)%Q |}).
  { rewrite CacheFacts.lookup_namespaced, Hc1. simpl.
    now rewrite CacheFacts.own_store_same. }
  assert (Hne : String.eqb ("app:" ++ key) "" = false) by reflexivity.
  split; intros Ht.
  - unfold CacheService.get. rewrite Hne, Hlook.
    cbn [CacheService.expiresAt CacheService.value].
    rewrite Qle_bool_false by (rewrite Hsum, <- Zlt_Qlt; exact Ht).
    now rewrite Hv1.
  - unfold CacheService.get. rewrite Hne, Hlook.
    cbn [CacheService.expiresAt CacheService.value].
    rewrite Qle_bool_true by (rewrite Hsum, <- Zle_Qle; exact Ht).
    cbn [fst snd].
    split; [reflexivity |].
    rewrite CacheFacts.lookup_namespaced.
    cbn [CacheService.entries].
    now rewrite CacheFacts.own_remove_same.
Qed.

(** X11: [set] writes under "app:" + key while [get] and [has] read under
    the key as given, so a [set] never changes what [get] or [has] answer
    for the very key it was called with. *)
Theorem X11_set_is_not_seen_under_its_own_key c key v ttl t0 t1 :
  fst (CacheService.get clone (CacheService.set clone c key v ttl t0) key t1)
    = fst (CacheService.get clone c key t1) /\
  fst (CacheService.has blank (CacheService.set clone c key v ttl t0) key t1)
    = fst (CacheService.has blank c key t1).
Proof.
  assert (Hne : key <> ("app:" ++ key)%string)
    by (intros H; symmetry in H; now apply CacheFacts.namespaced_key_is_longer in H).
  split.
  - apply get_answer_by_lookup, lookup_after_set, Hne.
  - apply has_answer_by_lookup, lookup_after_set, Hne.
Qed.

(** X12: [set] with the empty string as key, with a time to live that is
    not positive, or with a value [JSON] cannot clone leaves the cache as it
    was. *)
Theorem X12_rejected_set_changes_nothing c key v ttl now :
  key = "" \/ (ttl <= 0)%Q \/ clone v = None ->
  CacheService.set clone c key v ttl now = c.
Proof.
  intros H. unfold CacheService.set.
  destruct (String.eqb key "") eqn:Ek; [reflexivity |].
  destruct H as [H | [H | H]].
  - subst key. discriminate.
  - now rewrite (Qle_bool_true _ _ H).
  - rewrite H. now destruct (Qle_bool ttl 0).
Qed.

(** X13: [delete(key)] undoes a [set(key, ...)]: when nothing was stored for
    the key before, the cache is back as it was and the call returns
    [true]; and [delete] of a key nothing is stored for returns [false] and
    changes nothing. *)
Theorem X13_delete_undoes_set c key v safe ttl now :
  key <> "" ->
  CacheService.own (CacheService.entries c) ("app:" ++ key) = None ->
  CacheService.delete c key = (false, c) /\
  ((0 < ttl)%Q -> clone v = Some safe ->
   CacheService.delete (CacheService.set clone c key v ttl now) key
     = (true, c)).
Proof.
  intros Hkey Habsent. split.
  - unfold CacheService.delete. apply String.eqb_neq in Hkey. rewrite Hkey.
    rewrite CacheFacts.lookup_namespaced. now rewrite Habsent.
  - intros Httl Hclone. rewrite (set_stores c key v safe ttl now) by assumption.
    unfold CacheService.delete. apply String.eqb_neq in Hkey. rewrite Hkey.
    rewrite CacheFacts.lookup_namespaced. simpl.
    rewrite CacheFacts.own_store_same, CacheFacts.remove_store_absent
      by assumption.
    now destruct c.
Qed.

(** X14: at the very instant an entry expires, [get] and [has] disagree:
    [get] takes [expiresAt <= now] as expired, answers [null] and removes
    the entry; [has] takes only [expiresAt < now] as expired, answers
    [true] and keeps it. *)
Theorem X14_get_and_has_disagree_at_expiry c key item now :
  key <> "" ->
  blank key = false ->
  CacheService.lookup c key = CacheService.Own item ->
  (CacheService.expiresAt item == inject_Z now)%Q ->
  CacheService.get clone c key now =
    (None, {| CacheService.inherits := CacheService.inherits c;
              CacheService.entries :=
                CacheService.remove key (CacheService.entries c) |}) /\
  CacheService.has blank c key now = (true, c).
Proof.
  intros Hkey Hblank Hlook Hnow. split.
  - unfold CacheService.get. apply String.eqb_neq in Hkey.
    rewrite Hkey, Hlook. rewrite Qle_bool_true; [reflexivity |].
    rewrite Hnow. apply Qle_refl.
  - unfold CacheService.has. rewrite Hblank, Hlook. simpl.
    unfold CacheService.Qlt_bool. rewrite Qle_bool_true; [reflexivity |].
    rewrite Hnow. apply Qle_refl.
Qed.

(** X15: after [clear()] the cache answers [null], [false] and [false] to
    [get], [has] and [delete] for every key, and none of these calls
    changes it. *)
Theorem X15_clear_empties_the_cache c key now :
  let empty := CacheService.clear c in
  CacheService.get clone empty key now = (None, empty) /\
  CacheService.has blank empty key now = (false, empty) /\
  CacheService.delete empty key = (false, empty).
Proof.
  intros empty. repeat split.
  - unfold CacheService.get. now destruct (String.eqb key "").
  - unfold CacheService.has. now destruct (blank key).
  - unfold CacheService.delete. now destruct (String.eqb key "").
Qed.

(** X16: a cache that was never cleared is a plain object, so for each of
    the twelve names it inherits from [Object.prototype], and nothing stored
    under it, [has] answers [true] while [get] answers [null]. *)
Theorem X16_inherited_names_are_reported_present c key now :
  CacheService.inherits c = true ->
  In key CacheService.object_prototype_names ->
  CacheService.own (CacheService.entries c) key = None ->
  blank key = false ->
  CacheService.has blank c key now = (true, c) /\
  CacheService.get clone c key now = (None, c).
Proof.
  intros Hinh Hin Hown Hblank.
  assert (Hlook : CacheService.lookup c key = CacheService.Inherited).
  { assert (E : existsb (String.eqb key) CacheService.object_prototype_names
                = true).
    { apply existsb_exists. exists key. split; [exact Hin |].
      apply String.eqb_refl. }
    unfold CacheService.lookup. now rewrite Hown, Hinh, E. }
  split.
  - unfold CacheService.has. now rewrite Hblank, Hlook.
  - unfold CacheService.get. rewrite Hlook.
    now destruct (String.eqb key "").
Qed.

Lemma remove_keeps_namespaced c key :
  CacheService.namespaced c ->
  CacheService.namespaced
    {| CacheService.inherits := CacheService.inherits c;
       CacheService.entries :=
         CacheService.remove key (CacheService.entries c) |}.
Proof.
  unfold CacheService.namespaced, CacheService.remove. simpl.
  intros [Hpre Hnd]. split.
  - apply Forall_forall. intros e He. apply filter_In in He.
    rewrite Forall_forall in Hpre. now apply Hpre.
  - clear Hpre. induction (CacheService.entries c) as [| [k it] es IH];
      simpl in *; [constructor |].
    inversion Hnd as [| ? ? Hnotin Hnd']; subst.
    destruct (negb (String.eqb k key)); simpl; [| now apply IH].
    constructor; [| now apply IH].
    intros Hin. apply Hnotin.
    apply in_map_iff in Hin. destruct Hin as (e & He1 & He2).
    apply filter_In in He2. apply in_map_iff. exists e.
    split; [exact He1 | exact (proj1 He2)].
Qed.

Lemma set_keeps_namespaced c key v ttl now :
  CacheService.namespaced c ->
  CacheService.namespaced (CacheService.set clone c key v ttl now).
Proof.
  intros Hc.
  destruct (set_cases c key v ttl now) as [-> | [item ->]]; [exact Hc |].
  destruct Hc as [Hpre Hnd]. unfold CacheService.namespaced.
  cbn [CacheService.entries]. split.
  - apply CacheFacts.store_Forall; [exact Hpre |].
    apply CacheFacts.namespaced_key_has_prefix.
  - rewrite CacheFacts.store_keys.
    destruct (CacheService.own (CacheService.entries c) ("app:" ++ key))
      eqn:Hown; [exact Hnd |].
    apply NoDup_app; [exact Hnd | constructor; [intros [] | constructor] |].
    intros x Hx [Hx' | []]. subst x.
    now apply CacheFacts.own_none_not_in in Hown.
Qed.

(** X17: whatever calls were made on a cache since it was constructed,
    every key it holds starts with "app:" and is held once. *)
Theorem X17_every_stored_key_is_namespaced c :
  CacheService.reachable clone blank c ->
  Forall (fun e => String.prefix "app:" (fst e) = true)
    (CacheService.entries c) /\
  NoDup (map fst (CacheService.entries c)).
Proof.
  intros H. change (CacheService.namespaced c).
  induction H as [| c key v ttl now _ IH | c key now _ IH | c key _ IH
                  | c _ IH | c key now _ IH].
  - split; constructor.
  - now apply set_keeps_namespaced.
  - unfold CacheService.get.
    destruct (String.eqb key ""); [exact IH |].
    destruct (CacheService.lookup c key) as [item | |]; try exact IH.
    destruct (Qle_bool (CacheService.expiresAt item) (inject_Z now)).
    + now apply remove_keeps_namespaced.
    + now destruct (clone (CacheService.value item)).
  - unfold CacheService.delete.
    destruct (String.eqb key ""); [exact IH |].
    destruct (CacheService.lookup c ("app:" ++ key));
      try exact IH; now apply remove_keeps_namespaced.
  - split; constructor.
  - unfold CacheService.has.
    destruct (blank key); [exact IH |].
    destruct (CacheService.lookup c key) as [item | |]; simpl;
      try exact IH.
    destruct (CacheService.Qlt_bool (CacheService.expiresAt item)
                (inject_Z now)); [| exact IH].
    now apply remove_keeps_namespaced.
Qed.

Lemma unprefixed_key_is_not_stored c key :
  CacheService.namespaced c ->
  String.prefix "app:" key = false ->
  CacheService.own (CacheService.entries c) key = None.
Proof.
  intros [Hpre _] Hkey.
  induction (CacheService.entries c) as [| [k it] es IH]; [reflexivity |].
  inversion Hpre as [| ? ? Hk Hrest]; subst. simpl in *.
  destruct (String.eqb k key) eqn:E; [| now apply IH].
  apply String.eqb_eq in E. subst k. congruence.
Qed.

End CacheProperties.

(** *** The cache at concrete inputs *)

Lemma X10_cache_round_trip_witness :
  fst (CacheService.get json_clone
         (CacheService.set json_clone CacheService.fresh "user:1" profile
            (inject_Z 300) 1000)
         ("app:" ++ "user:1") 2000)
  = Some (JObj [("name", JStr "Ann")]).
Proof.
  rewrite (proj1 (X10_cache_round_trip json_clone CacheService.fresh
                    "user:1" profile (JObj [("name", JStr "Ann")])
                    (JObj [("name", JStr "Ann")]) 300 1000 2000
                    ltac:(discriminate) ltac:(reflexivity)
                    ltac:(discriminate) ltac:(discriminate)
                    eq_refl eq_refl)
             ltac:(reflexivity)).
  reflexivity.
Defined.

Lemma X12_rejected_set_changes_nothing_witness :
  CacheService.set json_clone CacheService.fresh "user:1" JUndefined 300 1000
  = CacheService.fresh.
Proof.
  apply (X12_rejected_set_changes_nothing json_clone CacheService.fresh
           "user:1" JUndefined 300 1000).
  right. right. reflexivity.
Defined.

Lemma X13_delete_undoes_set_witness :
  CacheService.delete
    (CacheService.set json_clone CacheService.fresh "user:1" profile 300 1000)
    "user:1"
  = (true, CacheService.fresh).
Proof.
  apply (proj2 (X13_delete_undoes_set json_clone CacheService.fresh
                  "user:1" profile (JObj [("name", JStr "Ann")]) 300 1000
                  ltac:(discriminate) eq_refl)).
  - reflexivity.
  - reflexivity.
Defined.

Lemma X14_get_and_has_disagree_at_expiry_witness :
  let c := CacheService.set json_clone CacheService.fresh "user:1" profile
             1 0 in
  fst (CacheService.get json_clone c ("app:" ++ "user:1") 1000) = None /\
  fst (CacheService.has blank_without_spaces c ("app:" ++ "user:1") 1000) = true.
Proof.
  intros c.
  destruct (X14_get_and_has_disagree_at_expiry json_clone
              blank_without_spaces c ("app:" ++ "user:1")
              {| CacheService.value := JObj [("name", JStr "Ann")];
                 CacheService.expiresAt := (inject_Z 0 + 1 * 1000)%Q |}
              1000 ltac:(discriminate) eq_refl eq_refl
              ltac:(vm_compute; reflexivity)) as [Hget Hhas].
  rewrite Hget, Hhas. split; reflexivity.
Defined.

Lemma X16_inherited_names_are_reported_present_witness :
  CacheService.has blank_without_spaces (@CacheService.fresh JsVal)
    "toString" 1000 = (true, CacheService.fresh) /\
  CacheService.get json_clone (@CacheService.fresh JsVal) "toString" 1000
    = (None, CacheService.fresh).
Proof.
  apply (X16_inherited_names_are_reported_present json_clone
           blank_without_spaces CacheService.fresh "toString" 1000 eq_refl).
  - simpl. tauto.
  - reflexivity.
  - reflexivity.
Defined.

Lemma X17_every_stored_key_is_namespaced_witness :
  Forall (fun e => String.prefix "app:" (fst e) = true)
    (CacheService.entries
       (CacheService.set json_clone CacheService.fresh "user:1" profile
          300 1000)).
Proof.
  apply (X17_every_stored_key_is_namespaced json_clone blank_without_spaces).
  apply CacheService.reach_set, CacheService.reach_fresh.
Defined.

(* ===================================================================== *)
(** ** The rate limit guard *)
(* ===================================================================== *)

Lemma rate_limit_key_is_never_found (c : CacheService.Cache RateLimitGuard.RateRecord)
    ip now :
  CacheService.namespaced c ->
  CacheService.get RateLimitGuard.clone_record c ("rateLimit:" ++ ip) now
  = (None, c).
Proof.
  intros Hc. unfold CacheService.get.
  assert (Hne : String.eqb ("rateLimit:" ++ ip) "" = false) by reflexivity.
  rewrite Hne. unfold CacheService.lookup.
  rewrite (unprefixed_key_is_not_stored c ("rateLimit:" ++ ip) Hc).
  - assert (E : existsb (String.eqb ("rateLimit:" ++ ip))
                  CacheService.object_prototype_names = false)
      by reflexivity.
    rewrite E. now rewrite andb_false_r.
  - destruct (String.prefix "app:" ("rateLimit:" ++ ip)) eqn:E;
      [| reflexivity].
    apply String.prefix_correct in E. simpl in E. discriminate.
Qed.

Lemma handleRateLimit_allows st ip now t_get t_set :
  CacheService.namespaced (RateLimitGuard.cache st) ->
  RateLimitGuard.handleRateLimit st ip now t_get t_set =
  (RateLimitGuard.Allowed,
   {| RateLimitGuard.cache :=
        CacheService.set RateLimitGuard.clone_record (RateLimitGuard.cache st)
          ("rateLimit:" ++ ip)
          {| RateLimitGuard.count := 1;
             RateLimitGuard.record_expiresAt :=
               now + RateLimitGuard.windowMs |}
          (inject_Z RateLimitGuard.windowMs / 1000)%Q t_set;
      RateLimitGuard.requestRecords :=
        RateLimitGuard.remember (RateLimitGuard.requestRecords st) ip
          {| RateLimitGuard.count := 1;
             RateLimitGuard.record_expiresAt :=
               now + RateLimitGuard.windowMs |} |}).
Proof.
  intros Hc. unfold RateLimitGuard.handleRateLimit.
  now rewrite (rate_limit_key_is_never_found _ ip t_get Hc).
Qed.

Lemma serve_allows_all :
  forall requests st,
    CacheService.namespaced (RateLimitGuard.cache st) ->
    fst (RateLimitGuard.serve st requests)
    = repeat RateLimitGuard.Allowed (length requests).
Proof.
  induction requests as [| r rest IH]; intros st Hc; [reflexivity |].
  simpl RateLimitGuard.serve.
  rewrite (handleRateLimit_allows st _ _ _ _ Hc).
  match goal with
  | |- context [RateLimitGuard.serve ?st1 rest] =>
      specialize (IH st1); destruct (RateLimitGuard.serve st1 rest) as [vs st2]
  end.
  cbn [fst snd length repeat] in *. rewrite IH; [reflexivity |].
  cbn [RateLimitGuard.cache]. apply set_keeps_namespaced. exact Hc.
Qed.

(** X18: the guard reads the counter under "rateLimit:" + ip but the cache
    keeps what the guard writes under "app:rateLimit:" + ip.  So on a cache
    whose keys all start with "app:" the guard finds no record: it lets the
    request through, stores a record with count 1 again, and leaves the
    cache with keys that all start with "app:". *)
Theorem X18_guard_finds_no_record st ip now t_get t_set :
  CacheService.namespaced (RateLimitGuard.cache st) ->
  fst (RateLimitGuard.handleRateLimit st ip now t_get t_set)
    = RateLimitGuard.Allowed /\
  RateLimitGuard.cache
    (snd (RateLimitGuard.handleRateLimit st ip now t_get t_set))
    = CacheService.set RateLimitGuard.clone_record (RateLimitGuard.cache st)
        ("rateLimit:" ++ ip)
        {| RateLimitGuard.count := 1;
           RateLimitGuard.record_expiresAt := now + RateLimitGuard.windowMs |}
        (inject_Z RateLimitGuard.windowMs / 1000)%Q t_set /\
  CacheService.namespaced
    (RateLimitGuard.cache
       (snd (RateLimitGuard.handleRateLimit st ip now t_get t_set))).
Proof.
  intros Hc. rewrite (handleRateLimit_allows st ip now t_get t_set Hc).
  repeat split; try (now apply set_keeps_namespaced).
Qed.

Lemma X18_guard_finds_no_record_witness :
  fst (RateLimitGuard.handleRateLimit
         (snd (RateLimitGuard.handleRateLimit RateLimitGuard.initial
                 "9f86d081" 1000 1000 1001))
         "9f86d081" 2000 2000 2001)
  = RateLimitGuard.Allowed.
Proof.
  apply (X18_guard_finds_no_record
           (snd (RateLimitGuard.handleRateLimit RateLimitGuard.initial
                   "9f86d081" 1000 1000 1001))
           "9f86d081" 2000 2000 2001).
  vm_compute. split; repeat constructor. intros [].
Defined.

(** X19: starting from a service that was just constructed, every request
    of every run of requests is let through, however many come from one
    address within one window: the limit of 100 is never applied. *)
Theorem X19_no_request_is_ever_refused requests :
  fst (RateLimitGuard.serve RateLimitGuard.initial requests)
  = repeat RateLimitGuard.Allowed (length requests).
Proof.
  apply serve_allows_all. split; constructor.
Qed.

(* ===================================================================== *)
(** ** The exception filter *)
(* ===================================================================== *)

Lemma strict_eq_string v s : strict_eq v (JStr s) = true <-> v = JStr s.
Proof.
  destruct v; simpl; try (split; [discriminate | discriminate]).
  rewrite String.eqb_eq. split; [now intros -> | now intros [= ->]].
Qed.

(** X20: for a [QueryFailedError] the filter answers with one of three fixed
    pairs of status and message, and the driver's error code alone chooses
    among them: 400 'Invalid input format' for the code '22P02', 409
    'Duplicate record' for '23505', 500 'Something went wrong' for every
    other code and for an error without driver error.  So two such errors
    with the same code get the same answer: neither the message of the
    error nor anything else the driver reports reaches the response. *)
Theorem X20_query_errors_are_not_disclosed names driverError message :
  let answer :=
    AllExceptionsFilter.catch names
      (AllExceptionsFilter.QueryFailedError driverError message) in
  (driver_code driverError = JStr "22P02" <-> answer = invalid_input) /\
  (driver_code driverError = JStr "23505" <-> answer = duplicate_record) /\
  (driver_code driverError <> JStr "22P02" /\
   driver_code driverError <> JStr "23505" <->
   answer = something_went_wrong) /\
  (forall driverError' message',
      driver_code driverError' = driver_code driverError ->
      AllExceptionsFilter.catch names
        (AllExceptionsFilter.QueryFailedError driverError' message')
      = answer).
Proof.
  intros answer. subst answer.
  unfold AllExceptionsFilter.catch. fold (driver_code driverError).
  split; [| split; [| split]].
  - destruct (strict_eq (driver_code driverError) (JStr "22P02")) eqn:E1.
    + apply strict_eq_string in E1. split; [reflexivity | now intros _].
    + destruct (strict_eq (driver_code driverError) (JStr "23505"));
        (split; [| discriminate]);
        intros H; apply strict_eq_string in H; congruence.
  - destruct (strict_eq (driver_code driverError) (JStr "22P02")) eqn:E1.
    + apply strict_eq_string in E1. rewrite E1.
      split; discriminate.
    + destruct (strict_eq (driver_code driverError) (JStr "23505")) eqn:E2.
      * apply strict_eq_string in E2. split; [reflexivity | now intros _].
      * split; [| discriminate].
        intros H; apply strict_eq_string in H; congruence.
  - destruct (strict_eq (driver_code driverError) (JStr "22P02")) eqn:E1.
    + apply strict_eq_string in E1. split; [tauto | discriminate].
    + destruct (strict_eq (driver_code driverError) (JStr "23505")) eqn:E2.
      * apply strict_eq_string in E2. split; [tauto | discriminate].
      * split; [reflexivity | intros _].
        split; intros H; apply strict_eq_string in H; congruence.
  - intros driverError' message' Hcode.
    fold (driver_code driverError'). now rewrite Hcode.
Qed.

(** Two duplicate-key errors that differ in everything but the code. *)
Lemma X20_query_errors_are_not_disclosed_witness :
  AllExceptionsFilter.catch (fun _ => JUndefined)
    (AllExceptionsFilter.QueryFailedError
       (Some [("code", JStr "23505"); ("detail", JStr "Key (email) exists")])
       "duplicate key value violates unique constraint")
  = duplicate_record /\
  AllExceptionsFilter.catch (fun _ => JUndefined)
    (AllExceptionsFilter.QueryFailedError
       (Some [("code", JStr "23505"); ("table", JStr "users")])
       "another message")
  = duplicate_record.
Proof.
  split.
  - apply (proj1 (proj1 (proj2 (X20_query_errors_are_not_disclosed
                                  (fun _ => JUndefined)
                                  (Some [("code", JStr "23505");
                                         ("detail",
                                          JStr "Key (email) exists")])
                                  "duplicate key value violates unique constraint")))).
    reflexivity.
  - apply (proj1 (proj1 (proj2 (X20_query_errors_are_not_disclosed
                                  (fun _ => JUndefined)
                                  (Some [("code", JStr "23505");
                                         ("table", JStr "users")])
                                  "another message")))).
    reflexivity.
Defined.

(** X21: whatever was thrown, the body the filter sends carries the very
    status it sets on the response and [data: null]; that status is the
    exception's own for an [HttpException] and 400, 409 or 500 otherwise.
    For an [Error] of any other class the message of the error is sent as
    it is, with status 500; for a thrown value that is no [Error] the
    message is 'Something went wrong'. *)
Theorem X21_error_body_matches_the_status names exception :
  let status := fst (AllExceptionsFilter.catch names exception) in
  let body := snd (AllExceptionsFilter.catch names exception) in
  field body "status" = JNum status /\
  field body "data" = JNull /\
  match exception with
  | AllExceptionsFilter.HttpException st _ => status = st
  | AllExceptionsFilter.QueryFailedError _ _ =>
      status = 400%Z \/ status = 409%Z \/ status = 500%Z
  | AllExceptionsFilter.OtherError m =>
      status = 500%Z /\ field body "message" = JStr m
  | AllExceptionsFilter.NotAnError _ =>
      status = 500%Z /\ field body "message" = JStr "Something went wrong"
  end.
Proof.
  intros status body. subst status body.
  unfold AllExceptionsFilter.catch.
  destruct exception as [st res | d m | m | v]; simpl.
  - repeat split.
  - destruct (strict_eq _ (JStr "22P02")); [simpl; tauto |].
    destruct (strict_eq _ (JStr "23505")); simpl; tauto.
  - repeat split.
  - repeat split.
Qed.

(* ===================================================================== *)
(** ** The sanitizer of the logging interceptor *)
(* ===================================================================== *)

Lemma get_assign_same o k v : get (LoggingInterceptor.assign o k v) k = v.
Proof.
  induction o as [| [k' x] o IH]; simpl.
  - now rewrite String.eqb_refl.
  - destruct (String.eqb k' k) eqn:E; simpl.
    + now rewrite String.eqb_refl.
    + now rewrite E.
Qed.

Lemma get_assign_other o k v k' :
  k' <> k -> get (LoggingInterceptor.assign o k v) k' = get o k'.
Proof.
  intros Hne. induction o as [| [k0 x] o IH]; simpl.
  - destruct (String.eqb k k') eqn:E; [| reflexivity].
    apply String.eqb_eq in E. congruence.
  - destruct (String.eqb k0 k) eqn:E; simpl.
    + apply String.eqb_eq in E. subst k0.
      destruct (String.eqb k k') eqn:E'; [| reflexivity].
      apply String.eqb_eq in E'. congruence.
    + now rewrite IH.
Qed.

Lemma assign_keeps_keys o k v :
  LoggingInterceptor.is_defined (get o k) = true ->
  map fst (LoggingInterceptor.assign o k v) = map fst o.
Proof.
  induction o as [| [k' x] o IH]; simpl; [discriminate |].
  destruct (String.eqb k' k) eqn:E; simpl.
  - apply String.eqb_eq in E. now subst k'.
  - intros H. now rewrite IH.
Qed.

Lemma assign_same_value o k v :
  get o k = v -> LoggingInterceptor.is_defined v = true ->
  LoggingInterceptor.assign o k v = o.
Proof.
  induction o as [| [k' x] o IH]; simpl.
  - intros <-. discriminate.
  - destruct (String.eqb k' k) eqn:E.
    + apply String.eqb_eq in E. subst k'. now intros ->.
    + intros Hg Hd. now rewrite IH.
Qed.

Lemma get_redact o f k :
  get (LoggingInterceptor.redact o f) k =
  if String.eqb k f && LoggingInterceptor.is_defined (get o k)
  then JStr "[REDACTED]"
  else get o k.
Proof.
  unfold LoggingInterceptor.redact.
  destruct (String.eqb k f) eqn:E.
  - apply String.eqb_eq in E. subst k. simpl.
    destruct (LoggingInterceptor.is_defined (get o f)); [| reflexivity].
    apply get_assign_same.
  - simpl. apply String.eqb_neq in E.
    destruct (LoggingInterceptor.is_defined (get o f)); [| reflexivity].
    now apply get_assign_other.
Qed.

Lemma redact_keeps_keys o f :
  map fst (LoggingInterceptor.redact o f) = map fst o.
Proof.
  unfold LoggingInterceptor.redact.
  destruct (LoggingInterceptor.is_defined (get o f)) eqn:E; [| reflexivity].
  now apply assign_keeps_keys.
Qed.

Lemma get_redact_all fs :
  forall o k,
    get (fold_left LoggingInterceptor.redact fs o) k =
    if existsb (String.eqb k) fs && LoggingInterceptor.is_defined (get o k)
    then JStr "[REDACTED]"
    else get o k.
Proof.
  induction fs as [| f fs IH]; intros o k; [reflexivity |].
  simpl fold_left. rewrite IH, get_redact. simpl existsb.
  destruct (String.eqb k f); simpl.
  - destruct (LoggingInterceptor.is_defined (get o k)) eqn:E; simpl.
    + now rewrite andb_true_r, Tauto.if_same.
    + now rewrite E, andb_false_r.
  - reflexivity.
Qed.

Lemma redact_all_keeps_keys fs :
  forall o, map fst (fold_left LoggingInterceptor.redact fs o) = map fst o.
Proof.
  induction fs as [| f fs IH]; intros o; [reflexivity |].
  simpl. now rewrite IH, redact_keeps_keys.
Qed.

(** X22: [sanitize] gives an object with the same keys in the same order; a
    top-level field named password, token, accessToken, refreshToken or
    authorization reads '[REDACTED]' unless it was [undefined], and every
    other field reads as before.  So a field with another spelling of such
    a name, or such a name inside a nested object, is logged as it is. *)
Theorem X22_sanitize_redacts_top_level_fields_only o :
  exists cleaned,
    LoggingInterceptor.sanitize (Some o) = Some cleaned /\
    map fst cleaned = map fst o /\
    forall k,
      get cleaned k =
      if existsb (String.eqb k) LoggingInterceptor.sensitiveFields
         && LoggingInterceptor.is_defined (get o k)
      then JStr "[REDACTED]"
      else get o k.
Proof.
  eexists. split; [reflexivity |]. split.
  - apply redact_all_keeps_keys.
  - intros k. apply get_redact_all.
Qed.

Lemma redact_all_fixed fs :
  forall o,
    (forall f, In f fs ->
       get o f = JStr "[REDACTED]" \/ get o f = JUndefined) ->
    fold_left LoggingInterceptor.redact fs o = o.
Proof.
  induction fs as [| f fs IH]; intros o H; [reflexivity |].
  simpl.
  assert (Hf : LoggingInterceptor.redact o f = o).
  { unfold LoggingInterceptor.redact.
    destruct (H f (or_introl eq_refl)) as [Hr | Hu].
    - rewrite Hr. simpl. now apply assign_same_value.
    - now rewrite Hu. }
  rewrite Hf. apply IH. intros g Hg. apply H. now right.
Qed.

(** X23: sanitizing twice is sanitizing once. *)
Theorem X23_sanitize_is_idempotent obj :
  LoggingInterceptor.sanitize (LoggingInterceptor.sanitize obj)
  = LoggingInterceptor.sanitize obj.
Proof.
  destruct obj as [o |]; [| reflexivity].
  unfold LoggingInterceptor.sanitize. f_equal. apply redact_all_fixed.
  intros f Hf. rewrite get_redact_all.
  assert (E : existsb (String.eqb f) LoggingInterceptor.sensitiveFields
              = true).
  { apply existsb_exists. exists f. split; [exact Hf |].
    apply String.eqb_refl. }
  rewrite E. simpl.
  destruct (get o f); simpl; auto.
Qed.

(* ===================================================================== *)
(** ** The write side *)
(* ===================================================================== *)

Lemma lift_updateStatus env ids status s :
  Crud.lift (TasksService.updateStatus env ids status) s =
  match update_outcome env (length (update_log (Crud.world s))) with
  | Return affected =>
      (Return (JObj [("affected", nullish affected (JNum 0))]),
       {| Crud.world := with_updates (Crud.world s) [update_call ids status];
          Crud.crud_log := Crud.crud_log s |})
  | Throw e =>
      (Throw e,
       {| Crud.world := with_updates (Crud.world s) [update_call ids status];
          Crud.crud_log := Crud.crud_log s |})
  end.
Proof.
  unfold Crud.lift. rewrite updateStatus_run. cbv zeta.
  destruct (update_outcome env (length (update_log (Crud.world s))));
    reflexivity.
Qed.

Lemma bulkDelete_run crud taskIds s :
  Crud.bulkDelete crud taskIds s =
  match Crud.findBy_outcome crud (length (Crud.crud_log s)) with
  | Return tasks =>
      if Nat.eqb (length tasks) 0
      then (Return JUndefined, Crud.logged s (Crud.FindBy taskIds))
      else
        (match Crud.remove_outcome crud (S (length (Crud.crud_log s))) with
         | Some e => Throw e
         | None => Return JUndefined
         end,
         {| Crud.world := Crud.world s;
            Crud.crud_log :=
              (Crud.crud_log s ++
               [Crud.FindBy taskIds; Crud.Remove tasks])%list |})
  | Throw e => (Throw e, Crud.logged s (Crud.FindBy taskIds))
  end.
Proof.
  unfold Crud.bulkDelete, Crud.bindS, Crud.manager_findBy,
    Crud.manager_remove, Crud.retS.
  destruct (Crud.findBy_outcome crud (length (Crud.crud_log s)))
    as [tasks | e]; [| reflexivity].
  destruct (Nat.eqb (length tasks) 0); [reflexivity |].
  unfold Crud.logged. cbn [Crud.crud_log Crud.world].
  rewrite length_app, <- app_assoc. cbn [length app].
  rewrite Nat.add_1_r.
  now destruct (Crud.remove_outcome crud _).
Qed.

Lemma bulkDelete_returns_nothing crud taskIds s r s' :
  Crud.bulkDelete crud taskIds s = (Return r, s') -> r = JUndefined.
Proof.
  unfold Crud.bulkDelete, Crud.bindS, Crud.manager_findBy,
    Crud.manager_remove, Crud.retS.
  destruct (Crud.findBy_outcome crud (length (Crud.crud_log s)))
    as [tasks | e]; [| discriminate].
  destruct (Nat.eqb (length tasks) 0); [now intros [= <- _] |].
  destruct (Crud.remove_outcome crud _); [discriminate |].
  now intros [= <- _].
Qed.

(** The body of a response: [{ status, data, message }]. *)
Lemma batch_validation env crud body s :
  (forall first others, get body "tasks" <> JArr (first :: others)) ->
  Crud.batchProcess env crud body s =
  (Return (JObj [("status", JNum 400); ("data", JNull);
                 ("message", JStr "No tasks provided")]), s).
Proof.
  intros H. unfold Crud.batchProcess.
  destruct (get body "tasks") as [| | | | | | [| first others] |];
    try reflexivity.
  now destruct (H first others).
Qed.

(** X24: [batchProcess] answers a body whose [tasks] is not an array, or is
    an empty one, with status 400 'No tasks provided', and a body whose
    [action] is neither "complete" nor "delete" with status 400 'Unknown
    batch action'; in both cases nothing is updated, looked up or removed. *)
Theorem X24_batch_rejects_bad_input env crud body s :
  ((forall first others, get body "tasks" <> JArr (first :: others)) ->
   Crud.batchProcess env crud body s =
   (Return (JObj [("status", JNum 400); ("data", JNull);
                  ("message", JStr "No tasks provided")]), s)) /\
  (forall first others,
      get body "tasks" = JArr (first :: others) ->
      get body "action" <> JStr "complete" ->
      get body "action" <> JStr "delete" ->
      Crud.batchProcess env crud body s =
      (Return (JObj [("status", JNum 400); ("data", JNull);
                     ("message", JStr "Unknown batch action")]), s)).
Proof.
  split; [apply batch_validation |].
  intros first others Htasks Hc Hd. unfold Crud.batchProcess.
  rewrite Htasks.
  assert (E1 : strict_eq (get body "action") (JStr "complete") = false).
  { destruct (get body "action"); try reflexivity. simpl.
    apply String.eqb_neq. congruence. }
  assert (E2 : strict_eq (get body "action") (JStr "delete") = false).
  { destruct (get body "action"); try reflexivity. simpl.
    apply String.eqb_neq. congruence. }
  cbn [existsb]. now rewrite E1, E2.
Qed.

Lemma X24_batch_rejects_bad_input_witness :
  Crud.batchProcess one_task healthy_crud
    [("tasks", JArr []); ("action", JStr "complete")] at_start =
  (Return (JObj [("status", JNum 400); ("data", JNull);
                 ("message", JStr "No tasks provided")]), at_start) /\
  Crud.batchProcess one_task healthy_crud (batch_body "archive") at_start =
  (Return (JObj [("status", JNum 400); ("data", JNull);
                 ("message", JStr "Unknown batch action")]), at_start).
Proof.
  split.
  - apply (proj1 (X24_batch_rejects_bad_input one_task healthy_crud
                    [("tasks", JArr []); ("action", JStr "complete")]
                    at_start)).
    simpl. discriminate.
  - apply (proj2 (X24_batch_rejects_bad_input one_task healthy_crud
                    (batch_body "archive") at_start)
             (JStr "t1") [JStr "t2"] eq_refl); simpl; discriminate.
Defined.

(** X25: the action "delete" looks the tasks up, removes what it found (and
    calls [remove] only when it found something), and then always reports
    [affected: 0] next to [processed], the number of ids in the request:
    how many tasks were found and removed is not reported. *)
Theorem X25_batch_delete_reports_zero_affected env crud body s first others
    found :
  get body "tasks" = JArr (first :: others) ->
  get body "action" = JStr "delete" ->
  Crud.findBy_outcome crud (length (Crud.crud_log s)) = Return found ->
  (found <> [] ->
   Crud.remove_outcome crud (S (length (Crud.crud_log s))) = None) ->
  Crud.batchProcess env crud body s =
  (Return (JObj [("status", JNum 200);
                 ("data",
                  JObj [("processed",
                         JNum (Z.of_nat (length (first :: others))));
                        ("affected", JNum 0)]);
                 ("message", JStr "Batch processing completed")]),
   {| Crud.world := Crud.world s;
      Crud.crud_log :=
        (Crud.crud_log s ++
         Crud.FindBy (JArr (first :: others)) ::
         match found with
         | [] => []
         | _ :: _ => [Crud.Remove found]
         end)%list |}).
Proof.
  intros Htasks Haction Hfind Hremove.
  unfold Crud.batchProcess. rewrite Htasks, Haction.
  change (existsb (strict_eq (JStr "delete"))
            [JStr "complete"; JStr "delete"]) with true.
  change (strict_eq (JStr "delete") (JStr "complete")) with false.
  change (strict_eq (JStr "delete") (JStr "delete")) with true.
  change (negb true) with false. cbv iota.
  unfold Crud.try_catchS, Crud.bindS.
  rewrite bulkDelete_run, Hfind.
  destruct found as [| t ts].
  - reflexivity.
  - change (Nat.eqb (length (t :: ts)) 0) with false. cbv iota.
    rewrite Hremove by discriminate. reflexivity.
Qed.

Lemma X25_batch_delete_reports_zero_affected_witness :
  fst (Crud.batchProcess one_task healthy_crud (batch_body "delete")
         at_start) =
  Return (JObj [("status", JNum 200);
                ("data", JObj [("processed", JNum 2); ("affected", JNum 0)]);
                ("message", JStr "Batch processing completed")]).
Proof.
  rewrite (X25_batch_delete_reports_zero_affected one_task healthy_crud
             (batch_body "delete") at_start (JStr "t1") [JStr "t2"]
             [task_row "t1" "PENDING" 10; task_row "t2" "PENDING" 20]
             eq_refl eq_refl eq_refl (fun _ => eq_refl)).
  reflexivity.
Defined.

(** X26: the action "complete" makes one call of [updateStatus], with the
    whole array of ids and the status COMPLETED, and answers with status
    200, [processed] the number of ids in the request and [affected] what
    the update reported, 0 when it reported nothing. *)
Theorem X26_batch_complete_updates_once env crud body s first others
    affected :
  get body "tasks" = JArr (first :: others) ->
  get body "action" = JStr "complete" ->
  update_outcome env (length (update_log (Crud.world s))) = Return affected ->
  Crud.batchProcess env crud body s =
  (Return (JObj [("status", JNum 200);
                 ("data",
                  JObj [("processed",
                         JNum (Z.of_nat (length (first :: others))));
                        ("affected",
                         js_or (nullish affected (JNum 0)) (JNum 0))]);
                 ("message", JStr "Batch processing completed")]),
   {| Crud.world :=
        with_updates (Crud.world s)
          [{| update_ids := JArr (first :: others);
              update_status := JStr "COMPLETED" |}];
      Crud.crud_log := Crud.crud_log s |}).
Proof.
  intros Htasks Haction Hupdate.
  unfold Crud.batchProcess. rewrite Htasks, Haction.
  change (existsb (strict_eq (JStr "complete"))
            [JStr "complete"; JStr "delete"]) with true.
  change (strict_eq (JStr "complete") (JStr "complete")) with true.
  change (negb true) with false. cbv iota.
  unfold Crud.try_catchS, Crud.bindS.
  rewrite lift_updateStatus, Hupdate. reflexivity.
Qed.

Lemma X26_batch_complete_updates_once_witness :
  fst (Crud.batchProcess one_task healthy_crud (batch_body "complete")
         at_start) =
  Return (JObj [("status", JNum 200);
                ("data", JObj [("processed", JNum 2); ("affected", JNum 1)]);
                ("message", JStr "Batch processing completed")]).
Proof.
  rewrite (X26_batch_complete_updates_once one_task healthy_crud
             (batch_body "complete") at_start (JStr "t1") [JStr "t2"]
             (JNum 1) eq_refl eq_refl eq_refl).
  reflexivity.
Defined.

(** X27: on a body that is an object [batchProcess] never throws: whatever
    the fields of the body and whatever the database does, it returns a
    response whose status is 200, 400 or 500. *)
Theorem X27_batch_never_throws env crud body s :
  exists r s',
    Crud.batchProcess env crud body s = (Return r, s') /\
    (field r "status" = JNum 200 \/
     field r "status" = JNum 400 \/
     field r "status" = JNum 500).
Proof.
  unfold Crud.batchProcess.
  destruct (get body "tasks") as [| | | | | | [| first others] |];
    try (do 2 eexists; split; [reflexivity | simpl; tauto]).
  destruct (negb (existsb (strict_eq (get body "action"))
                    [JStr "complete"; JStr "delete"]));
    [do 2 eexists; split; [reflexivity | simpl; tauto] |].
  unfold Crud.try_catchS, Crud.bindS.
  match goal with
  | |- context [(if ?a then ?x else ?y) s] =>
      destruct ((if a then x else y) s) as [[result | e] s1]
  end.
  - do 2 eexists. split; [reflexivity | simpl; tauto].
  - do 2 eexists. split; [reflexivity | simpl; tauto].
Qed.

(** X28: [TasksService.findOne] reports every failure in the same way: when
    no task has the id and when the lookup itself fails, it throws the
    error 'Task with ID <id> not found', and the error of the database is
    not passed on. *)
Theorem X28_findOne_reports_every_failure_as_not_found crud id s :
  let not_found := JError ("Task with ID " ++ to_string id ++ " not found") in
  (forall found,
      Crud.findOne_outcome crud (length (Crud.crud_log s))
        = Return (Some found) ->
      Crud.findOne crud id s
        = (Return found, Crud.logged s (Crud.FindOne id))) /\
  (Crud.findOne_outcome crud (length (Crud.crud_log s)) = Return None ->
   Crud.findOne crud id s
     = (Throw not_found, Crud.logged s (Crud.FindOne id))) /\
  (forall e,
      Crud.findOne_outcome crud (length (Crud.crud_log s)) = Throw e ->
      Crud.findOne crud id s
        = (Throw not_found, Crud.logged s (Crud.FindOne id))).
Proof.
  intros not_found.
  unfold Crud.findOne, Crud.try_catchS, Crud.bindS, Crud.manager_findOne.
  repeat split; intros; rewrite H; reflexivity.
Qed.

Lemma X28_findOne_reports_every_failure_as_not_found_witness :
  fst (Crud.findOne crud_down (JStr "t1") at_start)
  = Throw (JError "Task with ID t1 not found").
Proof.
  rewrite (proj2 (proj2 (X28_findOne_reports_every_failure_as_not_found
                           crud_down (JStr "t1") at_start))
             (JError "connection refused") eq_refl).
  reflexivity.
Defined.

(** X29: [TasksService.remove] returns the task as it was found before the
    deletion, provided the deletion did not report 0 affected rows; a task
    that is not found is not deleted at all, and a deletion that affected
    no row is reported as 'Task with ID <id> not found'. *)
Theorem X29_remove_returns_what_it_found crud id s :
  let not_found := JError ("Task with ID " ++ to_string id ++ " not found") in
  let k := length (Crud.crud_log s) in
  (Crud.findOne_outcome crud k = Return None ->
   Crud.remove crud id s
     = (Throw not_found, Crud.logged s (Crud.FindOne id))) /\
  (forall found affected,
      Crud.findOne_outcome crud k = Return (Some found) ->
      Crud.delete_outcome crud (S k) = Return affected ->
      Crud.remove crud id s =
      (if strict_eq affected (JNum 0) then Throw not_found else Return found,
       Crud.logged (Crud.logged s (Crud.FindOne id)) (Crud.Delete id))).
Proof.
  intros not_found k. subst k.
  unfold Crud.remove, Crud.bindS, Crud.manager_findOne. split.
  - intros H. now rewrite H.
  - intros found affected Hfind Hdel. rewrite Hfind.
    unfold Crud.repository_delete, Crud.logged at 1.
    cbn [Crud.crud_log]. rewrite length_app. cbn [length].
    rewrite Nat.add_1_r, Hdel.
    now destruct (strict_eq affected (JNum 0)).
Qed.

Lemma X29_remove_returns_what_it_found_witness :
  fst (Crud.remove healthy_crud (JStr "t1") at_start)
  = Return (task_row "t1" "PENDING" 10).
Proof.
  rewrite (proj2 (X29_remove_returns_what_it_found healthy_crud (JStr "t1")
                    at_start)
             (task_row "t1" "PENDING" 10) (JNum 1) eq_refl eq_refl).
  reflexivity.
Defined.

(** X30: [TasksService.update] awaits its enqueue inside a [try], so once
    the task is found and saved it returns the saved task whether the queue
    accepts the job or fails with an error; only a failure whose value is
    [null] or [undefined] escapes, as the [TypeError] of the [catch] block
    reading [queueError.stack].  It enqueues one 'task-status-update' job,
    carrying the id and the status of the saved task, exactly when the
    status read before the merge differs from the status of the saved
    task. *)
Theorem X30_update_survives_the_queue env crud merge type_error id dto s
    found saved :
  let k := length (Crud.crud_log s) in
  Crud.findOne_outcome crud k = Return (Some found) ->
  Crud.save_outcome crud (S k) = Return saved ->
  let changed := negb (strict_eq (get found "status") (get saved "status")) in
  let answer := add_outcome env (length (queue_log (Crud.world s))) in
  let call :=
    {| call_name := "task-status-update";
       call_data := [("taskId", get saved "id");
                     ("status", get saved "status")];
       call_opts := None;
       call_result := answer |} in
  Crud.update env crud merge type_error id dto s =
  (match enqueue_failure answer with
   | Some e =>
       if changed && negb (Crud.has_properties e)
       then Throw type_error else Return saved
   | None => Return saved
   end,
   {| Crud.world := if changed then with_adds (Crud.world s) [call]
                    else Crud.world s;
      Crud.crud_log :=
        (Crud.crud_log s ++
         [Crud.FindOne id; Crud.Save (merge found dto)])%list |}).
Proof.
  intros k Hfind Hsave changed answer call. subst k.
  unfold Crud.update, Crud.bindS at 1, Crud.manager_findOne.
  rewrite Hfind. unfold Crud.bindS at 1, Crud.manager_save, Crud.logged at 1.
  cbn [Crud.crud_log]. rewrite length_app. cbn [length].
  rewrite Nat.add_1_r, Hsave.
  fold changed. unfold Crud.logged. cbn [Crud.world Crud.crud_log].
  rewrite <- app_assoc. cbn [app].
  unfold Crud.bindS. destruct changed.
  - unfold Crud.try_catchS, Crud.lift, bind. cbn [Crud.world Crud.crud_log].
    rewrite taskQueue_add_run. cbv zeta. fold answer. fold call.
    destruct answer as [e | [job | e]]; cbn [enqueue_failure andb];
      try reflexivity; destruct e; reflexivity.
  - destruct (enqueue_failure answer); reflexivity.
Qed.

Lemma X30_update_survives_the_queue_witness :
  fst (Crud.update queue_closed healthy_crud fields_of_update_first no_stack
         (JStr "t1") [("status", JStr "COMPLETED")] at_start)
    = Return (task_row "t1" "COMPLETED" 10) /\
  length (queue_log (Crud.world
            (snd (Crud.update queue_closed healthy_crud
                    fields_of_update_first no_stack (JStr "t1")
                    [("status", JStr "COMPLETED")] at_start)))) = 1.
Proof.
  rewrite (X30_update_survives_the_queue queue_closed healthy_crud
             fields_of_update_first no_stack (JStr "t1")
             [("status", JStr "COMPLETED")] at_start
             (task_row "t1" "PENDING" 10) (task_row "t1" "COMPLETED" 10)
             eq_refl eq_refl).
  split; reflexivity.
Defined.
